(** * Riot champion-rotation functions: a shallow embedding

    The repository holds two Cloud Functions files.  The callable/scheduled
    file defines [fetchRiotRotation], [resolveRiotApiKey], the callable proxy
    [championRotation] and the scheduled job [checkChampionRotation]; the
    older HTTP file defines an [onRequest] proxy with the same upstream
    handling inlined.

    JavaScript values are embedded as an inductive type, exceptions as an
    error type, and the asynchronous handlers as functions in a state and
    error monad over a [world] (the Firestore document and the trace of
    external effects).  What the external services answer (secret manager,
    process environment, upstream HTTP API, Firestore, FCM) is an [env]
    record the handlers are run against. *)

From Stdlib Require Import ZArith List String Ascii Bool Lia.
From Stdlib Require Import DecimalString DecimalZ DecimalPos.
From Stdlib Require Import Sorting.Sorted Sorting.Permutation.
Import ListNotations.

Local Open Scope string_scope.
Local Open Scope Z_scope.

Set Warnings "-register-all".

(* ================================================================== *)
(** ** JavaScript values *)
(* ================================================================== *)

Module JS.

(** Values that reach this program: results of [JSON.parse], strings read
    from the environment, and [undefined].  Numbers are the integers (the
    upstream field is [freeChampionIds: number[]]); fractional numbers,
    [NaN] and the infinities are not values of the model, and [NaN] as the
    outcome of an arithmetic conversion is [None].  A string is a sequence
    of code units, one [ascii] each.  An object is its list of own
    properties in insertion order. *)
Inductive value : Type :=
| VUndefined
| VNull
| VBool (b : bool)
| VNum (n : Z)
| VStr (s : string)
| VArr (elems : list value)
| VObj (props : list (string * value)).

(** The four rate-limit headers, each a string or [null]. *)
Record RateInfo : Type := mkRateInfo {
  app : value;
  appCount : value;
  method : value;
  methodCount : value
}.

(** The [details] object of an [HttpsError]; each field holds what the
    property read on the caught error gave ([None]: no such property). *)
Record ErrorDetails : Type := mkDetails {
  d_status : value;
  d_rateInfo : option RateInfo;
  d_upstreamMessage : value
}.

(** Exceptions thrown or caught in the two files. *)
Inductive error : Type :=
| TypeError (msg : string)
| SyntaxError (msg : string)
| ServiceError (msg : string)
    (* rejection of an external call: fetch, Firestore, FCM, secret manager *)
| UpstreamError (status : Z) (rateInfo : RateInfo) (upstreamMessage : value)
    (* new Error("Upstream Riot API error") with the three properties set *)
| HttpsError (code : string) (message : string) (details : option ErrorDetails).

Inductive result (A : Type) : Type :=
| Ok (a : A)
| Throw (e : error).
Arguments Ok {A} a.
Arguments Throw {A} e.

(** ToBoolean. *)
Definition truthy (v : value) : bool :=
  match v with
  | VUndefined | VNull => false
  | VBool b => b
  | VNum n => negb (n =? 0)
  | VStr s => negb (String.eqb s EmptyString)
  | VArr _ | VObj _ => true
  end.

(** [a || b] and [a && b] on already evaluated operands. *)
Definition js_or (a b : value) : value := if truthy a then a else b.
Definition js_and (a b : value) : value := if truthy a then b else a.

Fixpoint lookup (k : string) (props : list (string * value)) : option value :=
  match props with
  | [] => None
  | (k', v) :: rest => if String.eqb k k' then Some v else lookup k rest
  end.

(** Property read [v.k] for the names this program reads ([status],
    [message], [freeChampionIds], [signature]); none of them is defined on
    a prototype, so only own properties of objects answer. *)
Definition get_prop (v : value) (k : string) : result value :=
  match v with
  | VUndefined =>
      Throw (TypeError "Cannot read properties of undefined")
  | VNull =>
      Throw (TypeError "Cannot read properties of null")
  | VObj props =>
      match lookup k props with
      | Some x => Ok x
      | None => Ok VUndefined
      end
  | VBool _ | VNum _ | VStr _ | VArr _ => Ok VUndefined
  end.

Definition isArray (v : value) : bool :=
  match v with
  | VArr _ => true
  | _ => false
  end.

(** [a === b].  Objects and arrays compare by identity; every comparison
    in the program has a freshly built primitive string on one side, so
    two structured operands are never the same object. *)
Definition strict_equals (a b : value) : bool :=
  match a, b with
  | VUndefined, VUndefined => true
  | VNull, VNull => true
  | VBool x, VBool y => Bool.eqb x y
  | VNum x, VNum y => x =? y
  | VStr x, VStr y => String.eqb x y
  | _, _ => false
  end.

(** Number::toString on an integer: its decimal form.  JavaScript
    prints an integer this way below 10^21 in magnitude and in exponent
    form from there on; the numbers of the model are those below. *)
Definition NumberToString (n : Z) : string :=
  NilZero.string_of_int (Z.to_int n).

(** Whether an object has an own property [k]. *)
Definition has_own (k : string) (props : list (string * value)) : bool :=
  match lookup k props with
  | Some _ => true
  | None => false
  end.

(** ToString.  An array answers through [Array.prototype.toString], that
    is, its [join(",")], in which [undefined] and [null] elements count as
    the empty string.  An object answers through OrdinaryToPrimitive: no
    property of a value made by [JSON.parse] is callable, so an own
    [toString] hides [Object.prototype.toString], [valueOf] gives back the
    object, and the conversion throws a TypeError; without an own
    [toString] the answer is ["[object Object]"]. *)
Fixpoint ToString (v : value) : result string :=
  match v with
  | VUndefined => Ok "undefined"
  | VNull => Ok "null"
  | VBool true => Ok "true"
  | VBool false => Ok "false"
  | VNum n => Ok (NumberToString n)
  | VStr s => Ok s
  | VArr elems =>
      (fix join (l : list value) : result string :=
         match l with
         | [] => Ok EmptyString
         | x :: rest =>
             match match x with
                   | VUndefined | VNull => Ok EmptyString
                   | _ => ToString x
                   end with
             | Throw err => Throw err
             | Ok s =>
                 match rest with
                 | [] => Ok s
                 | _ :: _ =>
                     match join rest with
                     | Throw err => Throw err
                     | Ok r => Ok (s ++ "," ++ r)
                     end
                 end
             end
         end) elems
  | VObj props =>
      if has_own "toString" props
      then Throw (TypeError "Cannot convert object to primitive value")
      else Ok "[object Object]"
  end.

Definition join_elem (x : value) : result string :=
  match x with
  | VUndefined | VNull => Ok EmptyString
  | _ => ToString x
  end.

(** [arr.join(sep)]: the elements are converted from left to right, and
    the first conversion that throws ends the call. *)
Fixpoint Array_join (sep : string) (elems : list value) : result string :=
  match elems with
  | [] => Ok EmptyString
  | x :: rest =>
      match join_elem x with
      | Throw err => Throw err
      | Ok s =>
          match rest with
          | [] => Ok s
          | _ :: _ =>
              match Array_join sep rest with
              | Throw err => Throw err
              | Ok r => Ok (s ++ sep ++ r)
              end
          end
      end
  end.

(** [s.slice(0, n)] for a non-negative [n]. *)
Definition slice0 (n : nat) (s : string) : string := substring 0 n s.

(** *** Numeric conversion and [Array.prototype.sort] *)

Definition is_whitespace (c : ascii) : bool :=
  let n := nat_of_ascii c in
  ((9 <=? n) && (n <=? 13))%nat || (n =? 32)%nat.

Fixpoint trim_left (s : string) : string :=
  match s with
  | EmptyString => EmptyString
  | String c r => if is_whitespace c then trim_left r else s
  end.

Fixpoint trim_right (s : string) : string :=
  match s with
  | EmptyString => EmptyString
  | String c r =>
      match trim_right r with
      | EmptyString => if is_whitespace c then EmptyString else String c EmptyString
      | r' => String c r'
      end
  end.

Fixpoint digits (acc : Z) (s : string) : option Z :=
  match s with
  | EmptyString => Some acc
  | String c r =>
      let n := nat_of_ascii c in
      if ((48 <=? n) && (n <=? 57))%nat
      then digits (acc * 10 + (Z.of_nat n - 48)) r
      else None
  end.

(** StringToNumber on the texts that are plain integers: surrounding
    white space is dropped, the empty string is 0, an optionally signed
    run of decimal digits is its value.  Every other text is [None].
    That is right for a text that is no number, and it is where this
    implementation, which has integers only, departs from JavaScript for
    a fraction, an exponent form, a hexadecimal, octal or binary literal
    and an infinity.  It is reached only when an array of ids holds a
    string. *)
Definition StringToNumber (s : string) : option Z :=
  match trim_right (trim_left s) with
  | EmptyString => Some 0
  | String "+" (String _ _ as ds) => digits 0 ds
  | String "-" (String _ _ as ds) => option_map Z.opp (digits 0 ds)
  | ds => digits 0 ds
  end.

(** ToNumber; [Ok None] is [NaN].  An array or an object is first made a
    primitive: the array through its [join], the object as in [ToString],
    so an object with an own [toString] throws a TypeError and any other
    object is [NaN]. *)
Definition ToNumber (v : value) : result (option Z) :=
  match v with
  | VUndefined => Ok None
  | VNull => Ok (Some 0)
  | VBool b => Ok (Some (if b then 1 else 0))
  | VNum n => Ok (Some n)
  | VStr s => Ok (StringToNumber s)
  | VArr _ =>
      match ToString v with
      | Ok s => Ok (StringToNumber s)
      | Throw err => Throw err
      end
  | VObj props =>
      if has_own "toString" props
      then Throw (TypeError "Cannot convert object to primitive value")
      else Ok None
  end.

(** [a - b]: the left operand is converted first. *)
Definition js_sub (a b : value) : result (option Z) :=
  match ToNumber a with
  | Throw err => Throw err
  | Ok x =>
      match ToNumber b with
      | Throw err => Throw err
      | Ok y =>
          match x, y with
          | Some x, Some y => Ok (Some (x - y))
          | _, _ => Ok None
          end
      end
  end.

(** SortCompare of ECMAScript: [undefined] sorts last without the
    comparator being called, a [NaN] answer counts as [+0], and an
    exception of the comparator ends the sort. *)
Definition SortCompare (comparefn : value -> value -> result (option Z))
    (x y : value) : result Z :=
  match x, y with
  | VUndefined, VUndefined => Ok 0
  | VUndefined, _ => Ok 1
  | _, VUndefined => Ok (-1)
  | _, _ => match comparefn x y with
            | Ok (Some v) => Ok v
            | Ok None => Ok 0
            | Throw err => Throw err
            end
  end.

(** [arr.sort(comparefn)], as a stable insertion sort.  ECMAScript fixes
    the result for a consistent comparator (here: on arrays of numbers);
    for an inconsistent one (mixed arrays, where [a - b] is [NaN] or a
    string reads as a number) the order is implementation-defined, and
    this is one implementation, not the one of any particular engine. *)
Fixpoint sort_insert (comparefn : value -> value -> result (option Z))
    (x : value) (l : list value) : result (list value) :=
  match l with
  | [] => Ok [x]
  | y :: r =>
      match SortCompare comparefn x y with
      | Throw err => Throw err
      | Ok c =>
          if c <=? 0 then Ok (x :: y :: r)
          else match sort_insert comparefn x r with
               | Ok r' => Ok (y :: r')
               | Throw err => Throw err
               end
      end
  end.

Fixpoint Array_sort (comparefn : value -> value -> result (option Z))
    (elems : list value) : result (list value) :=
  match elems with
  | [] => Ok []
  | x :: rest =>
      match Array_sort comparefn rest with
      | Ok sorted => sort_insert comparefn x sorted
      | Throw err => Throw err
      end
  end.

(** *** [JSON.stringify] *)

Definition dquote : string := String (ascii_of_nat 34) EmptyString.

Definition hex_digit (n : nat) : ascii :=
  if (n <? 10)%nat then ascii_of_nat (48 + n) else ascii_of_nat (87 + n).

Definition escape_char (c : ascii) : string :=
  let n := nat_of_ascii c in
  if (n =? 34)%nat then "\" ++ dquote
  else if (n =? 92)%nat then "\\"
  else if (n =? 8)%nat then "\b"
  else if (n =? 9)%nat then "\t"
  else if (n =? 10)%nat then "\n"
  else if (n =? 12)%nat then "\f"
  else if (n =? 13)%nat then "\r"
  else if (n <? 32)%nat
       then "\u00" ++ String (hex_digit (n / 16)) (String (hex_digit (n mod 16)) EmptyString)
  else String c EmptyString.

Fixpoint escape (s : string) : string :=
  match s with
  | EmptyString => EmptyString
  | String c r => escape_char c ++ escape r
  end.

Definition quote (s : string) : string := dquote ++ escape s ++ dquote.

(** [JSON.stringify(v)]; [None] is the [undefined] it returns for
    [undefined].  Inside an array [undefined] prints as [null], inside an
    object the property is left out. *)
Fixpoint JSON_stringify (v : value) : option string :=
  match v with
  | VUndefined => None
  | VNull => Some "null"
  | VBool true => Some "true"
  | VBool false => Some "false"
  | VNum n => Some (NumberToString n)
  | VStr s => Some (quote s)
  | VArr elems =>
      Some ("[" ++ String.concat ","
                     (map (fun x => match JSON_stringify x with
                                    | Some s => s
                                    | None => "null"
                                    end) elems) ++ "]")
  | VObj props =>
      Some ("{" ++ String.concat ","
                     (flat_map (fun kv => let '(k, x) := kv in
                                  match JSON_stringify x with
                                  | Some s => [quote k ++ ":" ++ s]
                                  | None => []
                                  end) props) ++ "}")
  end.

End JS.

(* ================================================================== *)
(** ** Effects: the world, the environment and the handler monad *)
(* ================================================================== *)

Module Effects.
Import JS.

Inductive level : Type := LInfo | LWarn | LError | LConsole.

Record Message : Type := mkMessage {
  m_title : string;
  m_body : string;
  m_topic : string
}.

(** What a run does to the outside, in order.  An event records the
    attempt: it is there whether the call then succeeds or rejects.  A log
    entry keeps its level and message text. *)
Inductive event : Type :=
| Log (lvl : level) (msg : string)
| HttpGet (url : string) (token : string)
| DocGet (collection document : string)
| DocSet (collection document : string) (data : list (string * value))
| Send (m : Message).

(** An HTTP response of the upstream API.  [r_text] is what
    [response.text()] settles to; [r_json] is what [JSON.parse] makes of
    that text ([None]: it throws a SyntaxError).  The JSON grammar that
    relates the two is not part of the model. *)
Record Response : Type := mkResponse {
  r_status : Z;
  r_header : string -> option string;
  r_text : result string;
  r_json : option value
}.

(** What the external services answer during one invocation. *)
Record env : Type := mkEnv {
  secret : result string;                 (* riotKeySecret.value() *)
  process_env : string -> option string;  (* process.env[name] *)
  fetch : string -> string -> result Response;
  firestore_get : option error;           (* Some e: docRef.get() rejects *)
  firestore_set : list (string * value) -> option error;
  messaging_send : Message -> result string;
  server_time : Z
}.

(** The single document [riot/rotation]: absent, or its fields. *)
Definition store : Type := option (list (string * value)).

Record outcome (A : Type) : Type := mkOutcome {
  res : result A;
  final : store;
  events : list event
}.
Arguments mkOutcome {A} res final events.
Arguments res {A} o.
Arguments final {A} o.
Arguments events {A} o.

Definition M (A : Type) : Type := store -> outcome A.

Definition ret {A} (a : A) : M A :=
  fun s => mkOutcome (Ok a) s [].

Definition throw {A} (e : error) : M A :=
  fun s => mkOutcome (Throw e) s [].

Definition bind {A B} (m : M A) (f : A -> M B) : M B :=
  fun s =>
    let o := m s in
    match res o with
    | Ok a =>
        let o' := f a (final o) in
        mkOutcome (res o') (final o') (events o ++ events o')
    | Throw e => mkOutcome (Throw e) (final o) (events o)
    end.

(** [try { m } catch (error) { h error }]. *)
Definition try_catch {A} (m : M A) (h : error -> M A) : M A :=
  fun s =>
    let o := m s in
    match res o with
    | Ok a => o
    | Throw e =>
        let o' := h e (final o) in
        mkOutcome (res o') (final o') (events o ++ events o')
    end.

Definition lift {A} (r : result A) : M A :=
  match r with
  | Ok a => ret a
  | Throw e => throw e
  end.

Definition emit (ev : event) : M unit :=
  fun s => mkOutcome (Ok tt) s [ev].

(** The pure part of the error monad, for expressions inside a [try]. *)
Definition rbind {A B} (r : result A) (f : A -> result B) : result B :=
  match r with
  | Ok a => f a
  | Throw e => Throw e
  end.

Declare Scope js_scope.
Delimit Scope js_scope with js.
Notation "x <- m ;; k" := (bind m (fun x => k))
  (at level 61, m at next level, right associativity) : js_scope.
Notation "m ;; k" := (bind m (fun _ => k))
  (at level 61, right associativity) : js_scope.
Notation "x <~ r ; k" := (rbind r (fun x => k))
  (at level 61, r at next level, right associativity) : js_scope.

(** Firestore [docRef.get()]: the snapshot is the current document. *)
Definition docRef_get (e : env) : M store :=
  fun s =>
    match firestore_get e with
    | None => mkOutcome (Ok s) s [DocGet "riot" "rotation"]
    | Some err => mkOutcome (Throw err) s [DocGet "riot" "rotation"]
    end.

(** Firestore [docRef.set(data)], without merge options: the document
    becomes [data].  A rejected write leaves the document as it was. *)
Definition docRef_set (e : env) (data : list (string * value)) : M unit :=
  fun s =>
    match firestore_set e data with
    | None => mkOutcome (Ok tt) (Some data) [DocSet "riot" "rotation" data]
    | Some err => mkOutcome (Throw err) s [DocSet "riot" "rotation" data]
    end.

(** FCM [messaging.send(message)]. *)
Definition send (e : env) (m : Message) : M string :=
  fun s => mkOutcome (messaging_send e m) s [Send m].

(** [fetch(url, {headers: {"X-Riot-Token": token}})]. *)
Definition http_get (e : env) (url token : string) : M Response :=
  fun s => mkOutcome (fetch e url token) s [HttpGet url token].

End Effects.

(* ================================================================== *)
(** ** The callable and scheduled functions *)
(* ================================================================== *)

Module Functions.
Import JS Effects.
Local Open Scope js_scope.

Definition riot_url : string :=
  "https://br1.api.riotgames.com/lol/platform/v3/champion-rotations".

(** [response.headers.get(name)]: the header's text, or [null]. *)
Definition headers_get (response : Response) (name : string) : value :=
  match r_header response name with
  | Some s => VStr s
  | None => VNull
  end.

(** [response.ok]: the status is in the range 200 to 299. *)
Definition response_ok (response : Response) : bool :=
  (200 <=? r_status response) && (r_status response <=? 299).

Definition JSON_parse (response : Response) : result value :=
  match r_json response with
  | Some v => Ok v
  | None => Throw (SyntaxError "Unexpected token in JSON")
  end.

(** [response.json()]: read the body, then parse it. *)
Definition response_json (response : Response) : result value :=
  _ <~ r_text response ; JSON_parse response.

(** The [try]/[catch] that picks [upstreamMessage] out of an error body:
    [(parsed.status && parsed.status.message) || parsed.message ||
     JSON.stringify(parsed).slice(0, 2000)], and on any exception
    [errorBody.slice(0, 2000)]. *)
Definition upstreamMessage_of (response : Response) (errorBody : string)
    : value :=
  match
    (parsed <~ JSON_parse response ;
     status <~ get_prop parsed "status" ;
     guarded <~ (if truthy status then get_prop status "message"
                 else Ok status) ;
     if truthy guarded then Ok guarded else
     message <~ get_prop parsed "message" ;
     if truthy message then Ok message else
     match JSON_stringify parsed with
     | Some dump => Ok (VStr (slice0 2000 dump))
     | None => Throw (TypeError "Cannot read properties of undefined")
     end)
  with
  | Ok v => v
  | Throw _ => VStr (slice0 2000 errorBody)
  end.

(** The header value is made a string when the request is built; the
    key the handlers pass is a string already. *)
Definition fetchRiotRotation (e : env) (riotApiKey : value)
    : M (value * RateInfo) :=
  token <- lift (ToString riotApiKey) ;;
  response <- http_get e riot_url token ;;
  emit (Log LConsole token) ;;
  let rateInfo :=
    mkRateInfo (headers_get response "x-app-rate-limit")
               (headers_get response "x-app-rate-limit-count")
               (headers_get response "x-method-rate-limit")
               (headers_get response "x-method-rate-limit-count") in
  if negb (response_ok response) then
    errorBody <- lift (r_text response) ;;
    let upstreamMessage := upstreamMessage_of response errorBody in
    emit (Log LError "Riot API error") ;;
    throw (UpstreamError (r_status response) rateInfo upstreamMessage)
  else
    payload <- lift (response_json response) ;;
    ret (payload, rateInfo).

(** [process.env.NAME]. *)
Definition env_var (e : env) (name : string) : value :=
  match process_env e name with
  | Some s => VStr s
  | None => VUndefined
  end.

Definition resolveRiotApiKey (e : env) : M value :=
  riotApiKey <-
    try_catch
      (s <- lift (secret e) ;; ret (VStr s))
      (fun secretError =>
         emit (Log LWarn
                 "Unable to read RIOT_KEY secret, falling back to env/config") ;;
         ret VUndefined) ;;
  let riotApiKey :=
    js_or (js_or (js_or riotApiKey (env_var e "RIOT_KEY"))
                 (env_var e "RIOT_API_KEY"))
          (env_var e "RIOT_TOKEN") in
  ret riotApiKey.

(** Property reads on a caught exception. *)
Definition error_status (err : error) : value :=
  match err with
  | UpstreamError status _ _ => VNum status
  | _ => VUndefined
  end.

Definition error_rateInfo (err : error) : option RateInfo :=
  match err with
  | UpstreamError _ rateInfo _ => Some rateInfo
  | _ => None
  end.

Definition error_upstreamMessage (err : error) : value :=
  match err with
  | UpstreamError _ _ upstreamMessage => upstreamMessage
  | _ => VUndefined
  end.

(** The chain of [if (error.status === N) code = ...] assignments. *)
Definition map_status_code (status : value) : string :=
  let code := "internal" in
  let code := if strict_equals status (VNum 400) then "invalid-argument" else code in
  let code := if strict_equals status (VNum 401) then "unauthenticated" else code in
  let code := if strict_equals status (VNum 403) then "permission-denied" else code in
  let code := if strict_equals status (VNum 404) then "not-found" else code in
  let code := if strict_equals status (VNum 429) then "resource-exhausted" else code in
  code.

(** The [catch] block of the callable proxy. *)
Definition championRotation_catch (err : error) : M value :=
  if truthy (error_status err) then
    let code := map_status_code (error_status err) in
    throw (HttpsError code "Upstream Riot API error"
             (Some (mkDetails (error_status err) (error_rateInfo err)
                              (error_upstreamMessage err))))
  else
    emit (Log LError "Failed to reach Riot API") ;;
    throw (HttpsError "internal" "Failed to contact Riot API" None).

Definition championRotation (e : env) : M value :=
  riotApiKey <- resolveRiotApiKey e ;;
  if negb (truthy riotApiKey) then
    emit (Log LError "Riot API key is not configured") ;;
    throw (HttpsError "internal" "Backend misconfiguration" None)
  else
    try_catch
      (r <- fetchRiotRotation e riotApiKey ;; ret (fst r))
      championRotation_catch.

(** A Firestore timestamp, as the object the SDK hands back. *)
Definition Timestamp (seconds : Z) : value :=
  VObj [("_seconds", VNum seconds); ("_nanoseconds", VNum 0)].

Definition rotation_message : Message :=
  mkMessage "New free champion rotation!"
            "This weekâ€™s free champions are live. Open the app to check them out."
            "riot-rotation".

(** The built-ins that lines 181-182 call, as a JavaScript engine
    provides them: the subtraction of the comparator,
    [Array.prototype.sort] and [Array.prototype.join].  ECMAScript leaves
    the order of [sort] to the engine when the comparator is not
    consistent, so the scheduled job is written over an engine, and
    [this_engine] is the implementation of module [JS]. *)
Record engine : Type := mkEngine {
  subtract : value -> value -> result (option Z);
  array_sort : (value -> value -> result (option Z)) ->
               list value -> result (list value);
  array_join : string -> list value -> result string
}.

Definition this_engine : engine := mkEngine js_sub Array_sort Array_join.

(** Lines 177-182: the ids and their signature. *)
Definition rotation_ids_on (js : engine) (payload : value)
    : result (list value) :=
  freeChampionIds <~ get_prop payload "freeChampionIds" ;
  let ids := match freeChampionIds with
             | VArr elems => elems      (* Array.isArray(...) ? ....slice() *)
             | _ => []
             end in
  array_sort js (fun a b => subtract js a b) ids.

Definition computeSignature_on (js : engine) (payload : value)
    : result string :=
  ids <~ rotation_ids_on js payload ;
  array_join js "," ids.

Definition rotation_ids (payload : value) : result (list value) :=
  rotation_ids_on this_engine payload.

Definition computeSignature (payload : value) : result string :=
  computeSignature_on this_engine payload.

(** The record passed to [docRef.set]; [updatedAt] is the server
    timestamp sentinel, shown as the time the server resolves it to. *)
Definition rotation_record (signature : string) (ids : list value)
    (payload : value) (now : Z) : list (string * value) :=
  [ ("signature", VStr signature);
    ("freeChampionIds", VArr ids);
    ("rawResponse", payload);
    ("updatedAt", Timestamp now) ].

(** [snapshot.exists ? snapshot.data().signature : null]. *)
Definition prevSignature_of (snapshot : store) : result value :=
  match snapshot with
  | Some data => get_prop (VObj data) "signature"
  | None => Ok VNull
  end.

(** The body of the [try] of the scheduled job. *)
Definition checkChampionRotation_try_on (js : engine) (e : env)
    (riotApiKey : value) : M unit :=
  r <- fetchRiotRotation e riotApiKey ;;
  let payload := fst r in
  ids <- lift (rotation_ids_on js payload) ;;
  signature <- lift (array_join js "," ids) ;;
  snapshot <- docRef_get e ;;
  prevSignature <- lift (prevSignature_of snapshot) ;;
  if strict_equals prevSignature (VStr signature) then
    emit (Log LInfo "Rotation unchanged, nothing to do.") ;;
    ret tt
  else
    docRef_set e (rotation_record signature ids payload (server_time e)) ;;
    emit (Log LInfo
            "New rotation detected and saved. Sending FCM notification to topic 'riot-rotation'...") ;;
    response <- send e rotation_message ;;
    emit (Log LInfo "FCM notification sent").

Definition checkChampionRotation_on (js : engine) (e : env) : M unit :=
  emit (Log LInfo "Running scheduled Riot rotation check...") ;;
  riotApiKey <- resolveRiotApiKey e ;;
  if negb (truthy riotApiKey) then
    emit (Log LError "Riot API key is not configured for scheduled function") ;;
    ret tt
  else
    try_catch
      (checkChampionRotation_try_on js e riotApiKey)
      (fun error => emit (Log LError "Error in scheduled rotation check")).

Definition checkChampionRotation_try (e : env) (riotApiKey : value)
    : M unit :=
  checkChampionRotation_try_on this_engine e riotApiKey.

Definition checkChampionRotation (e : env) : M unit :=
  checkChampionRotation_on this_engine e.

End Functions.

(* ================================================================== *)
(** ** The HTTP proxy of the older file *)
(* ================================================================== *)

Module Legacy.
Import JS Effects.
Local Open Scope js_scope.

(** What the handler sends back: [res.set("Allow", ...)], [res.status(...)]
    and [res.json(...)]. *)
Record Reply : Type := mkReply {
  allow : option string;
  status : Z;
  json : value
}.

Definition rateInfo_value (r : RateInfo) : value :=
  VObj [("app", app r); ("appCount", appCount r);
        ("method", method r); ("methodCount", methodCount r)].

(** [parsed.status?.message || parsed.message ||
     JSON.stringify(parsed).slice(0, 2000)], and on any exception
    [errorBody.slice(0, 2000)]. *)
Definition upstreamMessage_of (response : Response) (errorBody : string)
    : value :=
  match
    (parsed <~ Functions.JSON_parse response ;
     status <~ get_prop parsed "status" ;
     chained <~ (match status with
                 | VUndefined | VNull => Ok VUndefined
                 | _ => get_prop status "message"
                 end) ;
     if truthy chained then Ok chained else
     message <~ get_prop parsed "message" ;
     if truthy message then Ok message else
     match JSON_stringify parsed with
     | Some dump => Ok (VStr (slice0 2000 dump))
     | None => Throw (TypeError "Cannot read properties of undefined")
     end)
  with
  | Ok v => v
  | Throw _ => VStr (slice0 2000 errorBody)
  end.

Definition championRotation (e : env) (req_method : string) : M Reply :=
  if negb (String.eqb req_method "GET") then
    ret (mkReply (Some "GET") 405
           (VObj [("error", VStr "Only GET is supported")]))
  else
    riotApiKey <-
      try_catch
        (s <- lift (secret e) ;; ret (VStr s))
        (fun secretError =>
           emit (Log LWarn
                   "Unable to read RIOT_KEY secret, falling back to env/config") ;;
           ret VUndefined) ;;
    let riotApiKey :=
      js_or (js_or (js_or riotApiKey (Functions.env_var e "RIOT_KEY"))
                   (Functions.env_var e "RIOT_API_KEY"))
            (Functions.env_var e "RIOT_TOKEN") in
    if negb (truthy riotApiKey) then
      emit (Log LError "Riot API key is not configured") ;;
      ret (mkReply None 500 (VObj [("error", VStr "Backend misconfiguration")]))
    else
      try_catch
        (token <- lift (ToString riotApiKey) ;;
         response <- http_get e Functions.riot_url token ;;
         let rateInfo :=
           mkRateInfo
             (Functions.headers_get response "x-app-rate-limit")
             (Functions.headers_get response "x-app-rate-limit-count")
             (Functions.headers_get response "x-method-rate-limit")
             (Functions.headers_get response "x-method-rate-limit-count") in
         if negb (Functions.response_ok response) then
           errorBody <- lift (r_text response) ;;
           let upstreamMessage := upstreamMessage_of response errorBody in
           emit (Log LError "Riot API error") ;;
           ret (mkReply None (r_status response)
                  (VObj [("error", VStr "Upstream Riot API error");
                         ("status", VNum (r_status response));
                         ("rateInfo", rateInfo_value rateInfo);
                         ("upstreamMessage", upstreamMessage)]))
         else
           payload <- lift (Functions.response_json response) ;;
           ret (mkReply None 200 payload))
        (fun error =>
           emit (Log LError "Failed to reach Riot API") ;;
           ret (mkReply None 500
                  (VObj [("error", VStr "Failed to contact Riot API")]))).

End Legacy.

(* ================================================================== *)
(** ** What a run is observed to do *)
(* ================================================================== *)

Module Observe.
Import JS Effects Functions.

Definition is_write (ev : event) : bool :=
  match ev with
  | DocSet _ _ _ => true
  | _ => false
  end.

Definition is_publish (ev : event) : bool :=
  match ev with
  | Send _ => true
  | _ => false
  end.

(** Store writes and notification publishes attempted in a trace. *)
Definition writes (evs : list event) : nat := List.length (filter is_write evs).
Definition publishes (evs : list event) : nat := List.length (filter is_publish evs).

(** A store write occurs and a publish follows it. *)
Fixpoint write_then_publish (evs : list event) : bool :=
  match evs with
  | [] => false
  | ev :: rest =>
      if is_write ev then existsb is_publish rest
      else write_then_publish rest
  end.

(** The stored signature the job compares with: the [signature] field of
    the stored record, [undefined] when the record has no such field, and
    [null] when there is no record. *)
Definition stored_signature (st : store) : value :=
  match st with
  | Some data =>
      match lookup "signature" data with
      | Some v => v
      | None => VUndefined
      end
  | None => VNull
  end.

(** Values on which a property read throws. *)
Definition nullish (v : value) : bool :=
  match v with
  | VUndefined | VNull => true
  | _ => false
  end.

(** Whether Firestore accepts a write of [data]. *)
Definition accepted (e : env) (data : list (string * value)) : bool :=
  match firestore_set e data with
  | None => true
  | Some _ => false
  end.

Definition is_ok {A} (r : result A) : bool :=
  match r with
  | Ok _ => true
  | Throw _ => false
  end.

Definition logged (lvl : level) (msg : string) (evs : list event) : Prop :=
  In (Log lvl msg) evs.

(** The run resolves a credential and its upstream fetch returns
    [payload].  Neither step reads the store. *)
Definition upstream_payload (e : env) (payload : value) : Prop :=
  exists key rateInfo,
    truthy key = true /\
    forall st,
      res (resolveRiotApiKey e st) = Ok key /\
      res (fetchRiotRotation e key st) = Ok (payload, rateInfo).

(** The run resolves a credential and its upstream fetch throws [err]. *)
Definition upstream_failure (e : env) (err : error) : Prop :=
  exists key,
    truthy key = true /\
    forall st,
      res (resolveRiotApiKey e st) = Ok key /\
      res (fetchRiotRotation e key st) = Throw err.

(** A trace without store writes and without publishes. *)
Definition quiet (evs : list event) : Prop :=
  writes evs = 0%nat /\ publishes evs = 0%nat.

(** The shapes a run of the scheduled job can take. *)
Inductive run_shape (e : env) (st : store) (o : outcome unit) : Prop :=
| run_no_write :
    final o = st -> quiet (events o) -> run_shape e st o
| run_write_rejected (payload : value) (ids : list value)
    (signature : string) (pre post : list event) :
    rotation_ids payload = Ok ids ->
    Array_join "," ids = Ok signature ->
    let rec := rotation_record signature ids payload (server_time e) in
    accepted e rec = false ->
    quiet pre -> quiet post ->
    final o = st ->
    events o = (pre ++ DocSet "riot" "rotation" rec :: post)%list ->
    run_shape e st o
| run_write_accepted (payload : value) (ids : list value)
    (signature : string) (pre mid post : list event) :
    rotation_ids payload = Ok ids ->
    Array_join "," ids = Ok signature ->
    let rec := rotation_record signature ids payload (server_time e) in
    accepted e rec = true ->
    quiet pre -> quiet mid -> quiet post ->
    final o = Some rec ->
    events o = (pre ++ DocSet "riot" "rotation" rec
                    :: mid ++ Send rotation_message :: post)%list ->
    run_shape e st o.

End Observe.

(* ================================================================== *)
(** ** Reference definitions the embedding is compared with *)
(* ================================================================== *)

Module Reference.
Import JS Effects Functions Observe.

(** The insertion sort of [Array_sort] read on the integers themselves;
    it is used to reason about arrays of numbers. *)
Fixpoint insertZ (x : Z) (l : list Z) : list Z :=
  match l with
  | [] => [x]
  | y :: r => if x - y <=? 0 then x :: y :: r else y :: insertZ x r
  end.

Definition sortZ (l : list Z) : list Z := fold_right insertZ [] l.

(** Integers written in decimal and joined with a comma. *)
Definition comma_joined (ids : list Z) : string :=
  String.concat "," (map NumberToString ids).

(** The numbers held by an array of numbers. *)
Fixpoint numbers (elems : list value) : option (list Z) :=
  match elems with
  | [] => Some []
  | VNum n :: rest => option_map (cons n) (numbers rest)
  | _ :: _ => None
  end.

Definition is_number (v : value) : Prop := exists n, v = VNum n.

(** The upstream HTTP status an exception carries, if any. *)
Definition upstream_status (err : error) : option Z :=
  match err with
  | UpstreamError status _ _ => Some status
  | _ => None
  end.

(** The error-class table of the proxy as the specification gives it. *)
Definition spec_error_class (status : option Z) : string :=
  match status with
  | Some 400 => "invalid-argument"
  | Some 401 => "unauthenticated"
  | Some 403 => "permission-denied"
  | Some 404 => "not-found"
  | Some 429 => "resource-exhausted"
  | _ => "internal"
  end.

(** First non-empty text of a list of candidates. *)
Fixpoint first_nonempty (candidates : list (option string)) : option string :=
  match candidates with
  | [] => None
  | Some (String c r) :: _ => Some (String c r)
  | _ :: rest => first_nonempty rest
  end.

(** The credential candidates in their order of priority: the managed
    secret (none when its retrieval throws), then the three environment
    variables. *)
Definition key_candidates (e : env) : list (option string) :=
  [ match secret e with Ok s => Some s | Throw _ => None end;
    process_env e "RIOT_KEY";
    process_env e "RIOT_API_KEY";
    process_env e "RIOT_TOKEN" ].

(** The message field an error body offers: the nested [status.message]
    first, the top-level [message] second, each only when truthy. *)
Definition field_or_undefined (v : value) (k : string) : value :=
  match get_prop v k with
  | Ok x => x
  | Throw _ => VUndefined
  end.

Definition message_field (parsed : value) : option value :=
  let status := field_or_undefined parsed "status" in
  let nested := if truthy status then field_or_undefined status "message"
                else VUndefined in
  if truthy nested then Some nested
  else
    let top := field_or_undefined parsed "message" in
    if truthy top then Some top else None.

(** A text of at most [n] code units. *)
Definition text_within (n : nat) (v : value) : Prop :=
  exists s, v = VStr s /\ (String.length s <= n)%nat.

End Reference.

(* ================================================================== *)
(** ** Sample environments *)
(* ================================================================== *)

Module Samples.
Import JS Effects Functions Observe.

(** A response whose body is the JSON text of [v]. *)
Definition json_response (status : Z) (v : value) : Response :=
  mkResponse status (fun _ => None)
    (Ok (match JSON_stringify v with Some s => s | None => EmptyString end))
    (Some v).

(** An environment with the secret set, nothing in [process.env], and the
    given answers of the upstream API, Firestore and FCM. *)
Definition sample_env (upstream : result Response)
    (get_error set_error : option error) (sent : result string) : env :=
  mkEnv (Ok "RGAPI-sample") (fun _ => None) (fun _ _ => upstream)
        get_error (fun _ => set_error) (fun _ => sent) 1700000000.

Definition rotation_54 : value :=
  VObj [("freeChampionIds", VArr [VNum 5; VNum 4]);
        ("maxNewPlayerLevel", VNum 10)].

Definition rotation_312 : value :=
  VObj [("freeChampionIds", VArr [VNum 3; VNum 1; VNum 2])].

(** A rotation whose only id is an object with an own [toString]
    property that is not a function. *)
Definition rotation_unconvertible : value :=
  VObj [("freeChampionIds", VArr [VObj [("toString", VNum 1)]])].

(** Everything answers. *)
Definition env_fine (payload : value) : env :=
  sample_env (Ok (json_response 200 payload)) None None (Ok "projects/x/messages/1").

(** Firestore rejects the write. *)
Definition env_write_fails (payload : value) : env :=
  sample_env (Ok (json_response 200 payload)) None
             (Some (ServiceError "DEADLINE_EXCEEDED")) (Ok "projects/x/messages/1").

(** FCM rejects the publish. *)
Definition env_publish_fails (payload : value) : env :=
  sample_env (Ok (json_response 200 payload)) None None
             (Throw (ServiceError "messaging/server-unavailable")).

(** The network call itself fails. *)
Definition env_network_down : env :=
  sample_env (Throw (TypeError "fetch failed")) None None (Ok "projects/x/messages/1").

(** The upstream API answers with an error status and a JSON body. *)
Definition env_upstream_error (status : Z) (body : value) : env :=
  sample_env (Ok (json_response status body)) None None (Ok "projects/x/messages/1").

Definition rate_limit_body : value :=
  VObj [("status", VObj [("message", VStr "Rate limit exceeded");
                         ("status_code", VNum 429)])].

(** A message of 2001 code units, and error bodies that carry it. *)
Definition long_text : string := string_of_list_ascii (repeat "a"%char 2001).

Definition long_message_body : value := VObj [("message", VStr long_text)].

Definition long_nested_body : value :=
  VObj [("status", VObj [("message", VStr long_text)])].

(** No secret and only the last environment variable set. *)
Definition env_token_only : env :=
  mkEnv (Throw (ServiceError "secret RIOT_KEY is not available"))
        (fun name => if String.eqb name "RIOT_TOKEN" then Some "RGAPI-token" else None)
        (fun _ _ => Ok (json_response 200 rotation_54))
        None (fun _ => None) (fun _ => Ok "projects/x/messages/1") 1700000000.

(** A stored record left by an earlier run, with a field of its own. *)
Definition stale_record : list (string * value) :=
  [("signature", VStr "1,2,3");
   ("freeChampionIds", VArr [VNum 1; VNum 2; VNum 3]);
   ("note", VStr "written by hand")].

End Samples.

(* ================================================================== *)
(** ** External calls of a run *)
(* ================================================================== *)

Module Calls.
Import JS Effects Functions Observe Reference.

(** The four external services a handler can call. *)
Inductive call : Type := CallHttp | CallGet | CallSet | CallSend.

Definition call_of (ev : event) : option call :=
  match ev with
  | Log _ _ => None
  | HttpGet _ _ => Some CallHttp
  | DocGet _ _ => Some CallGet
  | DocSet _ _ _ => Some CallSet
  | Send _ => Some CallSend
  end.

(** The external calls of a trace, in order, log entries left out. *)
Fixpoint calls (evs : list event) : list call :=
  match evs with
  | [] => []
  | ev :: rest =>
      match call_of ev with
      | Some c => c :: calls rest
      | None => calls rest
      end
  end.

(** The order in which the scheduled job calls out: upstream fetch,
    store read, store write, publish. *)
Definition protocol : list call := [CallHttp; CallGet; CallSet; CallSend].

(** The HTTP requests of a trace: url and [X-Riot-Token]. *)
Fixpoint requests (evs : list event) : list (string * string) :=
  match evs with
  | [] => []
  | HttpGet url token :: rest => (url, token) :: requests rest
  | _ :: rest => requests rest
  end.

(** The texts written with [console.log]. *)
Fixpoint console (evs : list event) : list string :=
  match evs with
  | [] => []
  | Log LConsole msg :: rest => msg :: console rest
  | _ :: rest => console rest
  end.

(** The credential an environment is configured with: the first
    non-empty candidate, if there is one. *)
Definition credential (e : env) : option string :=
  first_nonempty (key_candidates e).

(** The error classes of the callable proxy. *)
Definition error_classes : list string :=
  [ "invalid-argument"; "unauthenticated"; "permission-denied";
    "not-found"; "resource-exhausted"; "internal" ].

(** Successive invocations of the scheduled job, each against its own
    environment, the store handed from one to the next. *)
Fixpoint run_all (es : list env) (st : store) : store * list event :=
  match es with
  | [] => (st, [])
  | e :: rest =>
      let o := checkChampionRotation e st in
      let '(st', evs) := run_all rest (final o) in
      (st', (events o ++ evs)%list)
  end.

Fixpoint has_comma (s : string) : bool :=
  match s with
  | EmptyString => false
  | String c r => Ascii.eqb c ","%char || has_comma r
  end.

(** Every payload the upstream of [e] can return has the signature
    [signature], when it has one. *)
Definition upstream_signature (e : env) (signature : string) : Prop :=
  forall key st payload rateInfo signature',
    res (fetchRiotRotation e key st) = Ok (payload, rateInfo) ->
    computeSignature payload = Ok signature' ->
    signature' = signature.

(** A field of the JSON body of a reply of the HTTP proxy. *)
Definition reply_field (k : string) (reply : Legacy.Reply) : option value :=
  match Legacy.json reply with
  | VObj props => lookup k props
  | _ => None
  end.

(** An upstream as HTTP has it: a response has a non-zero status, and a
    rejection of [fetch] or of reading a body carries no upstream status
    of its own. *)
Definition upstream_wellformed (e : env) : Prop :=
  forall url token,
    match fetch e url token with
    | Throw err => upstream_status err = None
    | Ok response =>
        r_status response <> 0 /\
        match r_text response with
        | Throw err => upstream_status err = None
        | Ok _ => True
        end
    end.

End Calls.

(* ================================================================== *)
(** ** Sorting arrays of integers *)
(* ================================================================== *)

Module SortFacts.
Import JS Reference.

Lemma sort_insert_nums (x : Z) (l : list Z) :
  sort_insert js_sub (VNum x) (map VNum l) = Ok (map VNum (insertZ x l)).
Proof.
  induction l as [|y r IH]; simpl; [reflexivity|].
  destruct (x - y <=? 0); simpl; [reflexivity|].
  now rewrite IH.
Qed.

Lemma Array_sort_nums (l : list Z) :
  Array_sort js_sub (map VNum l) = Ok (map VNum (sortZ l)).
Proof.
  unfold sortZ.
  induction l as [|x r IH]; simpl; [reflexivity|].
  now rewrite IH, sort_insert_nums.
Qed.

Lemma insertZ_perm (x : Z) (l : list Z) : Permutation (x :: l) (insertZ x l).
Proof.
  induction l as [|y r IH]; simpl; [apply Permutation_refl|].
  destruct (x - y <=? 0); [apply Permutation_refl|].
  eapply perm_trans; [apply perm_swap|].
  now apply perm_skip.
Qed.

Lemma sortZ_perm (l : list Z) : Permutation l (sortZ l).
Proof.
  induction l as [|x r IH]; simpl; [constructor|].
  eapply perm_trans; [apply perm_skip, IH|].
  apply insertZ_perm.
Qed.

Lemma insertZ_sorted (x : Z) (l : list Z) :
  StronglySorted Z.le l -> StronglySorted Z.le (insertZ x l).
Proof.
  induction 1 as [|y r Hs IH Hall]; simpl.
  - repeat constructor.
  - destruct (x - y <=? 0) eqn:Hc.
    + apply Z.leb_le in Hc.
      constructor; [now constructor|].
      constructor; [lia|].
      eapply Forall_impl; [|exact Hall].
      intros z Hz; lia.
    + apply Z.leb_gt in Hc.
      constructor; [exact IH|].
      apply (Permutation_Forall (insertZ_perm x r)).
      constructor; [lia|exact Hall].
Qed.

Lemma sortZ_sorted (l : list Z) : StronglySorted Z.le (sortZ l).
Proof.
  induction l as [|x r IH]; simpl; [constructor|].
  now apply insertZ_sorted.
Qed.

(** Two ascending lists with the same elements are the same list. *)
Lemma sorted_perm_unique (l1 : list Z) :
  forall l2,
    StronglySorted Z.le l1 -> StronglySorted Z.le l2 ->
    Permutation l1 l2 -> l1 = l2.
Proof.
  induction l1 as [|x r1 IH]; intros l2 H1 H2 Hp.
  - now apply Permutation_nil in Hp.
  - destruct l2 as [|y r2].
    + apply Permutation_sym, Permutation_nil in Hp; discriminate.
    + apply StronglySorted_inv in H1 as [Hs1 Ha1].
      apply StronglySorted_inv in H2 as [Hs2 Ha2].
      assert (Hxy : x = y).
      { assert (Hx : In x (y :: r2))
          by (eapply Permutation_in; [exact Hp | now left]).
        assert (Hy : In y (x :: r1))
          by (eapply Permutation_in; [apply Permutation_sym, Hp | now left]).
        rewrite Forall_forall in Ha1, Ha2.
        destruct Hx as [Hx|Hx]; [now symmetry|].
        destruct Hy as [Hy|Hy]; [assumption|].
        specialize (Ha1 _ Hy); specialize (Ha2 _ Hx); lia. }
      subst y. f_equal.
      apply IH; try assumption.
      eapply Permutation_cons_inv; exact Hp.
Qed.

Lemma sortZ_permutation_invariant (l l' : list Z) :
  Permutation l l' -> sortZ l = sortZ l'.
Proof.
  intro Hp.
  apply sorted_perm_unique; try apply sortZ_sorted.
  eapply perm_trans; [apply Permutation_sym, sortZ_perm|].
  eapply perm_trans; [exact Hp|apply sortZ_perm].
Qed.

Lemma sortZ_fixpoint (l : list Z) : StronglySorted Z.le l -> sortZ l = l.
Proof.
  intro Hs.
  apply sorted_perm_unique; [apply sortZ_sorted | exact Hs |].
  apply Permutation_sym, sortZ_perm.
Qed.

Lemma sort_insert_perm (cmp : value -> value -> result (option Z))
    (x : value) (l : list value) :
  forall l', sort_insert cmp x l = Ok l' -> Permutation (x :: l) l'.
Proof.
  induction l as [|y r IH]; simpl; intros l' H.
  - injection H as <-. apply Permutation_refl.
  - destruct (SortCompare cmp x y) as [c|err]; [|discriminate].
    destruct (c <=? 0).
    + injection H as <-. apply Permutation_refl.
    + destruct (sort_insert cmp x r) as [r'|err]; [|discriminate].
      injection H as <-.
      eapply perm_trans; [apply perm_swap|].
      apply perm_skip. now apply IH.
Qed.

Lemma Array_sort_perm (cmp : value -> value -> result (option Z))
    (l : list value) :
  forall l', Array_sort cmp l = Ok l' -> Permutation l l'.
Proof.
  induction l as [|x r IH]; simpl; intros l' H.
  - injection H as <-. constructor.
  - destruct (Array_sort cmp r) as [sorted|err]; [|discriminate].
    eapply perm_trans; [apply perm_skip, (IH sorted eq_refl)|].
    now apply (sort_insert_perm cmp).
Qed.

Lemma numbers_map (l : list Z) : numbers (map VNum l) = Some l.
Proof.
  induction l as [|x r IH]; cbn; [reflexivity|]. now rewrite IH.
Qed.

Lemma numbers_inv (elems : list value) (zs : list Z) :
  numbers elems = Some zs -> elems = map VNum zs.
Proof.
  revert zs. induction elems as [|x r IH]; intros zs; cbn.
  - now intros [= <-].
  - destruct x; try discriminate.
    destruct (numbers r) as [l|]; cbn; [|discriminate].
    intros [= <-]. cbn. now rewrite (IH l eq_refl).
Qed.

Lemma numbers_Forall (elems : list value) :
  Forall is_number elems <-> exists zs, numbers elems = Some zs.
Proof.
  split.
  - induction 1 as [|x r [n ->] _ [zs IH]]; cbn; [now exists []|].
    rewrite IH. cbn. eauto.
  - intros [zs H]. apply numbers_inv in H. subst.
    induction zs; constructor; [now eexists | assumption].
Qed.

(** A sorted array that holds only numbers was sorted from numbers. *)
Lemma sorted_numbers (elems sorted : list value) (zs : list Z) :
  Array_sort js_sub elems = Ok sorted ->
  numbers sorted = Some zs ->
  exists l, elems = map VNum l /\ zs = sortZ l.
Proof.
  intros Hsort H.
  assert (Hall : Forall is_number elems).
  { apply (Permutation_Forall
             (Permutation_sym (Array_sort_perm js_sub elems sorted Hsort))).
    apply numbers_Forall. eauto. }
  apply numbers_Forall in Hall as [l Hl].
  apply numbers_inv in Hl. subst elems.
  exists l. split; [reflexivity|].
  rewrite Array_sort_nums in Hsort. injection Hsort as <-.
  rewrite numbers_map in H. congruence.
Qed.

Lemma Array_join_nums (l : list Z) :
  Array_join "," (map VNum l) = Ok (comma_joined l).
Proof.
  unfold comma_joined.
  induction l as [|x r IH]; [reflexivity|].
  cbn [map Array_join join_elem ToString].
  destruct r as [|y r]; [reflexivity|].
  cbn [map] in IH |- *. now rewrite IH.
Qed.

End SortFacts.

(* ================================================================== *)
(** ** Facts about runs *)
(* ================================================================== *)

Module RunFacts.
Import JS Effects Functions Observe Reference Samples SortFacts.
Local Open Scope js_scope.

Lemma bind_unfold {A B} (m : M A) (f : A -> M B) (s : store) :
  bind m f s =
    match res (m s) with
    | Ok a =>
        mkOutcome (res (f a (final (m s)))) (final (f a (final (m s))))
                  (events (m s) ++ events (f a (final (m s))))
    | Throw e => mkOutcome (Throw e) (final (m s)) (events (m s))
    end.
Proof. reflexivity. Qed.

Lemma try_catch_unfold {A} (m : M A) (h : error -> M A) (s : store) :
  try_catch m h s =
    match res (m s) with
    | Ok a => m s
    | Throw e =>
        mkOutcome (res (h e (final (m s)))) (final (h e (final (m s))))
                  (events (m s) ++ events (h e (final (m s))))
    end.
Proof. reflexivity. Qed.

Lemma writes_app (a b : list event) :
  writes (a ++ b) = (writes a + writes b)%nat.
Proof. unfold writes. now rewrite filter_app, length_app. Qed.

Lemma publishes_app (a b : list event) :
  publishes (a ++ b) = (publishes a + publishes b)%nat.
Proof. unfold publishes. now rewrite filter_app, length_app. Qed.

Lemma quiet_nil : quiet [].
Proof. now split. Qed.

Lemma quiet_app (a b : list event) : quiet a -> quiet b -> quiet (a ++ b).
Proof.
  intros [Wa Pa] [Wb Pb]; split.
  - now rewrite writes_app, Wa, Wb.
  - now rewrite publishes_app, Pa, Pb.
Qed.

Lemma quiet_log (lvl : level) (msg : string) (evs : list event) :
  quiet evs -> quiet (Log lvl msg :: evs).
Proof. intros [W P]; split; assumption. Qed.

Lemma quiet_http (url token : string) (evs : list event) :
  quiet evs -> quiet (HttpGet url token :: evs).
Proof. intros [W P]; split; assumption. Qed.

Lemma quiet_docget (c d : string) (evs : list event) :
  quiet evs -> quiet (DocGet c d :: evs).
Proof. intros [W P]; split; assumption. Qed.

Create HintDb quiet.

#[local] Hint Resolve quiet_nil quiet_app quiet_log quiet_http quiet_docget
  : quiet.

Lemma no_write_in (evs : list event) (c d : string)
    (data : list (string * value)) :
  writes evs = 0%nat -> ~ In (DocSet c d data) evs.
Proof.
  unfold writes. intros W Hin.
  assert (Hf : In (DocSet c d data) (filter is_write evs))
    by (apply filter_In; split; [exact Hin | reflexivity]).
  destruct (filter is_write evs); [contradiction | discriminate].
Qed.

Lemma quiet_no_write (evs : list event) (c d : string)
    (data : list (string * value)) :
  quiet evs -> ~ In (DocSet c d data) evs.
Proof. intros [W _]. now apply no_write_in. Qed.

Lemma quiet_no_publish (evs : list event) : quiet evs -> existsb is_publish evs = false.
Proof.
  intros [_ P]. unfold publishes in P.
  induction evs as [|ev r IH]; [reflexivity|].
  cbn in *. destruct (is_publish ev); [discriminate|]. now apply IH.
Qed.

Lemma quiet_no_sequence (evs : list event) : quiet evs -> write_then_publish evs = false.
Proof.
  intros [W _]. unfold writes in W.
  induction evs as [|ev r IH]; [reflexivity|].
  cbn in *. destruct (is_write ev); [discriminate|]. now apply IH.
Qed.

Lemma sequence_after_quiet (pre evs : list event) :
  writes pre = 0%nat ->
  write_then_publish (pre ++ evs) = write_then_publish evs.
Proof.
  unfold writes.
  induction pre as [|ev r IH]; cbn; [reflexivity|].
  destruct (is_write ev); cbn; [discriminate | exact IH].
Qed.

(** One rejected write, and nothing after it but log entries. *)
Lemma count_write_only (pre post : list event) (c d : string) (data : list (string * value)) :
  quiet pre -> quiet post ->
  let evs := (pre ++ DocSet c d data :: post)%list in
  writes evs = 1%nat /\ publishes evs = 0%nat /\ write_then_publish evs = false.
Proof.
  intros [Wp Pp] [Wq Pq] evs; subst evs.
  rewrite writes_app, publishes_app, Wp, Pp.
  change (writes (DocSet c d data :: post)) with (S (writes post)).
  change (publishes (DocSet c d data :: post)) with (publishes post).
  rewrite Wq, Pq. repeat split.
  rewrite (sequence_after_quiet pre _ Wp); cbn.
  apply quiet_no_publish. now split.
Qed.

(** One accepted write followed by one publish. *)
Lemma count_write_publish (pre mid post : list event) (c d : string)
    (data : list (string * value)) (m : Message) :
  quiet pre -> quiet mid -> quiet post ->
  let evs := (pre ++ DocSet c d data :: mid ++ Send m :: post)%list in
  writes evs = 1%nat /\ publishes evs = 1%nat /\ write_then_publish evs = true.
Proof.
  intros [Wp Pp] [Wm Pm] [Wq Pq] evs; subst evs.
  rewrite writes_app, publishes_app, Wp, Pp.
  change (writes (DocSet c d data :: mid ++ Send m :: post))
    with (S (writes (mid ++ Send m :: post))).
  change (publishes (DocSet c d data :: mid ++ Send m :: post))
    with (publishes (mid ++ Send m :: post)).
  rewrite writes_app, publishes_app, Wm, Pm.
  change (writes (Send m :: post)) with (writes post).
  change (publishes (Send m :: post)) with (S (publishes post)).
  rewrite Wq, Pq. repeat split.
  rewrite (sequence_after_quiet pre _ Wp); cbn.
  rewrite existsb_app; cbn. now rewrite orb_true_r.
Qed.

Lemma in_single_write (pre post : list event) (c d c' d' : string)
    (data data' : list (string * value)) :
  writes pre = 0%nat -> writes post = 0%nat ->
  In (DocSet c' d' data') (pre ++ DocSet c d data :: post) -> data' = data.
Proof.
  intros Hp Hq Hin. apply in_app_or in Hin as [Hin|[Hin|Hin]].
  - now apply no_write_in in Hin.
  - now inversion Hin.
  - now apply no_write_in in Hin.
Qed.

Lemma writes_after_publish (mid post : list event) (m : Message) :
  quiet mid -> quiet post -> writes (mid ++ Send m :: post) = 0%nat.
Proof.
  intros [Wm _] [Wq _]. rewrite writes_app, Wm. exact Wq.
Qed.

(** *** The key resolver *)

Lemma resolve_final (e : env) (st : store) :
  final (resolveRiotApiKey e st) = st.
Proof. unfold resolveRiotApiKey, bind, try_catch; cbn. now destruct (secret e). Qed.

Lemma resolve_quiet (e : env) (st : store) :
  quiet (events (resolveRiotApiKey e st)).
Proof.
  unfold resolveRiotApiKey, bind, try_catch; cbn.
  destruct (secret e); cbn; auto with quiet.
Qed.

Lemma resolve_total (e : env) (st : store) :
  exists key, res (resolveRiotApiKey e st) = Ok key.
Proof.
  unfold resolveRiotApiKey, bind, try_catch; cbn.
  destruct (secret e); cbn; eauto.
Qed.

(** *** The upstream fetcher *)

Lemma fetch_final (e : env) (key : value) (st : store) :
  final (fetchRiotRotation e key st) = st.
Proof.
  unfold fetchRiotRotation. rewrite bind_unfold.
  destruct (ToString key) as [token|err]; cbn [lift ret throw res final];
    [|reflexivity].
  unfold bind, http_get; cbn.
  destruct (fetch e _ _) as [response|err]; cbn; [|reflexivity].
  destruct (response_ok response); cbn.
  - destruct (response_json response); reflexivity.
  - destruct (r_text response); reflexivity.
Qed.

Lemma fetch_quiet (e : env) (key : value) (st : store) :
  quiet (events (fetchRiotRotation e key st)).
Proof.
  unfold fetchRiotRotation. rewrite bind_unfold.
  destruct (ToString key) as [token|err];
    cbn [lift ret throw res final events]; [|auto with quiet].
  unfold bind, http_get; cbn.
  destruct (fetch e _ _) as [response|err]; cbn; auto with quiet.
  destruct (response_ok response); cbn.
  - destruct (response_json response); cbn; auto with quiet.
  - destruct (r_text response); cbn; auto with quiet.
Qed.

Lemma fetch_res_store (e : env) (key : value) (st st' : store) :
  res (fetchRiotRotation e key st) = res (fetchRiotRotation e key st').
Proof.
  unfold fetchRiotRotation. rewrite !bind_unfold.
  destruct (ToString key) as [token|err]; cbn [lift ret throw res final];
    [|reflexivity].
  unfold bind, http_get; cbn.
  destruct (fetch e _ _) as [response|err]; cbn; [|reflexivity].
  destruct (response_ok response); cbn.
  - destruct (response_json response); reflexivity.
  - destruct (r_text response); reflexivity.
Qed.

(** A failed upstream call with a readable body throws the status, the
    four rate-limit headers and the extracted message. *)
Lemma fetch_upstream_error (e : env) (key : value) (st : store)
    (token : string) (response : Response) (errorBody : string) :
  ToString key = Ok token ->
  fetch e riot_url token = Ok response ->
  response_ok response = false ->
  r_text response = Ok errorBody ->
  res (fetchRiotRotation e key st) =
    Throw (UpstreamError (r_status response)
             (mkRateInfo (headers_get response "x-app-rate-limit")
                         (headers_get response "x-app-rate-limit-count")
                         (headers_get response "x-method-rate-limit")
                         (headers_get response "x-method-rate-limit-count"))
             (upstreamMessage_of response errorBody)).
Proof.
  intros Hk Hf Hok Ht.
  unfold fetchRiotRotation. rewrite bind_unfold, Hk.
  unfold bind, http_get; cbn.
  rewrite Hf; cbn. rewrite Hok; cbn. rewrite Ht; cbn. reflexivity.
Qed.

(** *** The scheduled job, over any engine *)

Lemma prevSignature_of_ok (st : store) :
  prevSignature_of st = Ok (stored_signature st).
Proof.
  destruct st as [data|]; cbn; [|reflexivity].
  now destruct (lookup "signature" data).
Qed.

Section Engine.

Variable js : engine.

Lemma computeSignature_on_ids (payload : value) (ids : list value) :
  rotation_ids_on js payload = Ok ids ->
  computeSignature_on js payload = array_join js "," ids.
Proof. unfold computeSignature_on. now intros ->. Qed.

Lemma computeSignature_on_inv (payload : value) (signature : string) :
  computeSignature_on js payload = Ok signature ->
  exists ids,
    rotation_ids_on js payload = Ok ids /\
    array_join js "," ids = Ok signature.
Proof.
  unfold computeSignature_on.
  destruct (rotation_ids_on js payload) as [ids|err]; cbn; [|discriminate].
  intro H. now exists ids.
Qed.

(** The [try] body when the fetch, the signature and the read succeed. *)
Lemma try_run_on (e : env) (st : store) (key payload : value)
    (ri : RateInfo) (ids : list value) (signature : string) :
  res (fetchRiotRotation e key st) = Ok (payload, ri) ->
  rotation_ids_on js payload = Ok ids ->
  array_join js "," ids = Ok signature ->
  firestore_get e = None ->
  let rec := rotation_record signature ids payload (server_time e) in
  let pre := (events (fetchRiotRotation e key st)
              ++ [DocGet "riot" "rotation"])%list in
  checkChampionRotation_try_on js e key st =
    if strict_equals (stored_signature st) (VStr signature)
    then mkOutcome (Ok tt) st
           (pre ++ [Log LInfo "Rotation unchanged, nothing to do."])
    else match firestore_set e rec with
         | Some err =>
             mkOutcome (Throw err) st (pre ++ [DocSet "riot" "rotation" rec])
         | None =>
             mkOutcome
               (match messaging_send e rotation_message with
                | Ok _ => Ok tt
                | Throw err => Throw err
                end)
               (Some rec)
               (pre ++ DocSet "riot" "rotation" rec
                    :: Log LInfo
                         "New rotation detected and saved. Sending FCM notification to topic 'riot-rotation'..."
                    :: Send rotation_message
                    :: match messaging_send e rotation_message with
                       | Ok _ => [Log LInfo "FCM notification sent"]
                       | Throw _ => []
                       end)
         end.
Proof.
  intros Hf Hids Hjoin Hget rec pre.
  unfold checkChampionRotation_try_on.
  unfold bind at 1. cbv zeta. rewrite Hf. cbn [fst].
  rewrite Hids, fetch_final.
  unfold bind, lift, docRef_get, docRef_set, send, emit, ret; cbn.
  rewrite Hjoin; cbn.
  rewrite Hget; cbn.
  rewrite prevSignature_of_ok; cbn.
  fold rec.
  destruct (strict_equals (stored_signature st) (VStr signature)); cbn.
  - subst pre. now rewrite <- app_assoc.
  - destruct (firestore_set e rec); cbn.
    + subst pre. now rewrite <- app_assoc.
    + destruct (messaging_send e rotation_message); cbn; subst pre;
        now rewrite <- !app_assoc.
Qed.

Lemma try_fetch_throws_on (e : env) (st : store) (key : value) (err : error) :
  res (fetchRiotRotation e key st) = Throw err ->
  checkChampionRotation_try_on js e key st =
    mkOutcome (Throw err) st (events (fetchRiotRotation e key st)).
Proof.
  intro Hf. unfold checkChampionRotation_try_on.
  unfold bind at 1. cbv zeta. rewrite Hf. now rewrite fetch_final.
Qed.

Lemma try_ids_throw_on (e : env) (st : store) (key payload : value)
    (ri : RateInfo) (err : error) :
  res (fetchRiotRotation e key st) = Ok (payload, ri) ->
  rotation_ids_on js payload = Throw err ->
  checkChampionRotation_try_on js e key st =
    mkOutcome (Throw err) st (events (fetchRiotRotation e key st)).
Proof.
  intros Hf Hids. unfold checkChampionRotation_try_on.
  unfold bind at 1. cbv zeta. rewrite Hf. cbn [fst].
  rewrite Hids, fetch_final.
  unfold bind, lift, throw; cbn. now rewrite app_nil_r.
Qed.

Lemma try_join_throws_on (e : env) (st : store) (key payload : value)
    (ri : RateInfo) (ids : list value) (err : error) :
  res (fetchRiotRotation e key st) = Ok (payload, ri) ->
  rotation_ids_on js payload = Ok ids ->
  array_join js "," ids = Throw err ->
  checkChampionRotation_try_on js e key st =
    mkOutcome (Throw err) st (events (fetchRiotRotation e key st)).
Proof.
  intros Hf Hids Hjoin. unfold checkChampionRotation_try_on.
  unfold bind at 1. cbv zeta. rewrite Hf. cbn [fst].
  rewrite Hids, fetch_final.
  unfold bind, lift, throw, ret; cbn.
  rewrite Hjoin; cbn. now rewrite app_nil_r.
Qed.

Lemma try_read_throws_on (e : env) (st : store) (key payload : value)
    (ri : RateInfo) (ids : list value) (signature : string) (err : error) :
  res (fetchRiotRotation e key st) = Ok (payload, ri) ->
  rotation_ids_on js payload = Ok ids ->
  array_join js "," ids = Ok signature ->
  firestore_get e = Some err ->
  checkChampionRotation_try_on js e key st =
    mkOutcome (Throw err) st
      (events (fetchRiotRotation e key st) ++ [DocGet "riot" "rotation"]).
Proof.
  intros Hf Hids Hjoin Hget. unfold checkChampionRotation_try_on.
  unfold bind at 1. cbv zeta. rewrite Hf. cbn [fst].
  rewrite Hids, fetch_final.
  unfold bind, lift, docRef_get, ret; cbn.
  rewrite Hjoin; cbn.
  now rewrite Hget.
Qed.

(** The job around its [try]: it returns normally, and a caught
    exception adds one error entry to the log. *)
Lemma check_unfold_on (e : env) (st : store) (key : value) :
  res (resolveRiotApiKey e st) = Ok key ->
  checkChampionRotation_on js e st =
    let pre := Log LInfo "Running scheduled Riot rotation check..."
               :: events (resolveRiotApiKey e st) in
    if truthy key then
      let o := checkChampionRotation_try_on js e key st in
      mkOutcome (Ok tt) (final o)
        (pre ++ events o
             ++ match res o with
                | Ok _ => []
                | Throw _ => [Log LError "Error in scheduled rotation check"]
                end)
    else
      mkOutcome (Ok tt) st
        (pre ++ [Log LError
                   "Riot API key is not configured for scheduled function"]).
Proof.
  intro Hk. unfold checkChampionRotation_on.
  rewrite bind_unfold. cbn [emit res final events].
  rewrite bind_unfold. rewrite Hk, resolve_final.
  destruct (truthy key); cbn [negb].
  - rewrite try_catch_unfold.
    destruct (res (checkChampionRotation_try_on js e key st)) as [[]|err] eqn:Hr;
      cbn; rewrite ?Hr; cbn; [now rewrite app_nil_r | reflexivity].
  - unfold bind, emit, ret; cbn. reflexivity.
Qed.

#[local] Hint Resolve resolve_quiet fetch_quiet : quiet.

Lemma check_total_on (e : env) (st : store) :
  res (checkChampionRotation_on js e st) = Ok tt.
Proof.
  destruct (resolve_total e st) as [key Hk].
  rewrite (check_unfold_on e st key Hk); cbv zeta.
  now destruct (truthy key).
Qed.

(** The job when the credential, the fetch, the signature and the read
    all succeed: what it writes and publishes is decided by the stored
    signature and by whether Firestore accepts the write. *)
Lemma check_run_on (e : env) (st : store) (key payload : value)
    (ri : RateInfo) (ids : list value) (signature : string) :
  res (resolveRiotApiKey e st) = Ok key ->
  truthy key = true ->
  res (fetchRiotRotation e key st) = Ok (payload, ri) ->
  rotation_ids_on js payload = Ok ids ->
  array_join js "," ids = Ok signature ->
  firestore_get e = None ->
  let rec := rotation_record signature ids payload (server_time e) in
  let o := checkChampionRotation_on js e st in
  if strict_equals (stored_signature st) (VStr signature)
  then final o = st /\ quiet (events o)
  else if accepted e rec
       then final o = Some rec /\ writes (events o) = 1%nat /\
            publishes (events o) = 1%nat /\
            write_then_publish (events o) = true
       else final o = st /\ writes (events o) = 1%nat /\
            publishes (events o) = 0%nat /\
            write_then_publish (events o) = false.
Proof.
  intros Hk Ht Hf Hids Hjoin Hget rec o; subst o.
  rewrite (check_unfold_on e st key Hk); cbv zeta. rewrite Ht.
  rewrite (try_run_on e st key payload ri ids signature Hf Hids Hjoin Hget);
    cbv zeta.
  fold rec.
  destruct (strict_equals _ _).
  { cbn; split; [reflexivity | auto 8 with quiet]. }
  unfold accepted.
  set (pre := ((Log LInfo "Running scheduled Riot rotation check..."
                  :: events (resolveRiotApiKey e st))
               ++ events (fetchRiotRotation e key st)
               ++ [DocGet "riot" "rotation"])%list).
  assert (Hpre : quiet pre) by (subst pre; auto 8 with quiet).
  destruct (firestore_set e rec) as [err|]; cbn [res final events].
  - split; [reflexivity|].
    match goal with
    | |- context [writes ?l] =>
        replace l
          with (pre ++ DocSet "riot" "rotation" rec
                    :: [Log LError "Error in scheduled rotation check"])%list
          by (subst pre; now rewrite <- !app_assoc)
    end.
    apply count_write_only; auto with quiet.
  - split; [reflexivity|].
    set (post := match messaging_send e rotation_message with
                 | Ok _ => [Log LInfo "FCM notification sent"]
                 | Throw _ => [Log LError "Error in scheduled rotation check"]
                 end).
    assert (Hpost : quiet post)
      by (subst post; destruct (messaging_send e rotation_message);
          auto with quiet).
    match goal with
    | |- context [writes ?l] =>
        replace l
          with (pre ++ DocSet "riot" "rotation" rec
                    :: [Log LInfo
                          "New rotation detected and saved. Sending FCM notification to topic 'riot-rotation'..."]
                    ++ Send rotation_message :: post)%list
          by (subst pre post; destruct (messaging_send e rotation_message);
              cbn; now rewrite <- !app_assoc)
    end.
    apply count_write_publish; auto with quiet.
Qed.

(** The job when the signature computation throws: the exception is
    caught and logged before the store is read. *)
Lemma check_signature_throws_on (e : env) (st : store) (key payload : value)
    (ri : RateInfo) (err : error) :
  res (resolveRiotApiKey e st) = Ok key ->
  truthy key = true ->
  res (fetchRiotRotation e key st) = Ok (payload, ri) ->
  computeSignature_on js payload = Throw err ->
  let o := checkChampionRotation_on js e st in
  final o = st /\ quiet (events o) /\
  logged LError "Error in scheduled rotation check" (events o).
Proof.
  intros Hk Ht Hf Hsig o; subst o.
  rewrite (check_unfold_on e st key Hk); cbv zeta. rewrite Ht.
  assert (Htry : checkChampionRotation_try_on js e key st =
                 mkOutcome (Throw err) st
                   (events (fetchRiotRotation e key st))).
  { destruct (rotation_ids_on js payload) as [ids|err'] eqn:Hids.
    - rewrite (computeSignature_on_ids payload ids Hids) in Hsig.
      exact (try_join_throws_on e st key payload ri ids err Hf Hids Hsig).
    - unfold computeSignature_on in Hsig. rewrite Hids in Hsig.
      cbn in Hsig. injection Hsig as <-.
      exact (try_ids_throw_on e st key payload ri err' Hf Hids). }
  rewrite Htry; cbn [res final events].
  split; [reflexivity|]. split; [auto 8 with quiet|].
  unfold logged. cbn. right.
  apply in_or_app. right. apply in_or_app. right. now left.
Qed.

End Engine.

(** *** The scheduled job on the built-ins of this development *)

Lemma computeSignature_ids (payload : value) (ids : list value) :
  rotation_ids payload = Ok ids ->
  computeSignature payload = Array_join "," ids.
Proof. exact (computeSignature_on_ids this_engine payload ids). Qed.

Lemma computeSignature_inv (payload : value) (signature : string) :
  computeSignature payload = Ok signature ->
  exists ids,
    rotation_ids payload = Ok ids /\ Array_join "," ids = Ok signature.
Proof. exact (computeSignature_on_inv this_engine payload signature). Qed.

Lemma try_run (e : env) (st : store) (key payload : value)
    (ri : RateInfo) (ids : list value) (signature : string) :
  res (fetchRiotRotation e key st) = Ok (payload, ri) ->
  rotation_ids payload = Ok ids ->
  Array_join "," ids = Ok signature ->
  firestore_get e = None ->
  let rec := rotation_record signature ids payload (server_time e) in
  let pre := (events (fetchRiotRotation e key st)
              ++ [DocGet "riot" "rotation"])%list in
  checkChampionRotation_try e key st =
    if strict_equals (stored_signature st) (VStr signature)
    then mkOutcome (Ok tt) st
           (pre ++ [Log LInfo "Rotation unchanged, nothing to do."])
    else match firestore_set e rec with
         | Some err =>
             mkOutcome (Throw err) st (pre ++ [DocSet "riot" "rotation" rec])
         | None =>
             mkOutcome
               (match messaging_send e rotation_message with
                | Ok _ => Ok tt
                | Throw err => Throw err
                end)
               (Some rec)
               (pre ++ DocSet "riot" "rotation" rec
                    :: Log LInfo
                         "New rotation detected and saved. Sending FCM notification to topic 'riot-rotation'..."
                    :: Send rotation_message
                    :: match messaging_send e rotation_message with
                       | Ok _ => [Log LInfo "FCM notification sent"]
                       | Throw _ => []
                       end)
         end.
Proof. exact (try_run_on this_engine e st key payload ri ids signature). Qed.

Lemma try_fetch_throws (e : env) (st : store) (key : value) (err : error) :
  res (fetchRiotRotation e key st) = Throw err ->
  checkChampionRotation_try e key st =
    mkOutcome (Throw err) st (events (fetchRiotRotation e key st)).
Proof. exact (try_fetch_throws_on this_engine e st key err). Qed.

Lemma try_ids_throw (e : env) (st : store) (key payload : value)
    (ri : RateInfo) (err : error) :
  res (fetchRiotRotation e key st) = Ok (payload, ri) ->
  rotation_ids payload = Throw err ->
  checkChampionRotation_try e key st =
    mkOutcome (Throw err) st (events (fetchRiotRotation e key st)).
Proof. exact (try_ids_throw_on this_engine e st key payload ri err). Qed.

Lemma try_join_throws (e : env) (st : store) (key payload : value)
    (ri : RateInfo) (ids : list value) (err : error) :
  res (fetchRiotRotation e key st) = Ok (payload, ri) ->
  rotation_ids payload = Ok ids ->
  Array_join "," ids = Throw err ->
  checkChampionRotation_try e key st =
    mkOutcome (Throw err) st (events (fetchRiotRotation e key st)).
Proof. exact (try_join_throws_on this_engine e st key payload ri ids err). Qed.

Lemma try_read_throws (e : env) (st : store) (key payload : value)
    (ri : RateInfo) (ids : list value) (signature : string) (err : error) :
  res (fetchRiotRotation e key st) = Ok (payload, ri) ->
  rotation_ids payload = Ok ids ->
  Array_join "," ids = Ok signature ->
  firestore_get e = Some err ->
  checkChampionRotation_try e key st =
    mkOutcome (Throw err) st
      (events (fetchRiotRotation e key st) ++ [DocGet "riot" "rotation"]).
Proof.
  exact (try_read_throws_on this_engine e st key payload ri ids signature err).
Qed.

Lemma check_unfold (e : env) (st : store) (key : value) :
  res (resolveRiotApiKey e st) = Ok key ->
  checkChampionRotation e st =
    let pre := Log LInfo "Running scheduled Riot rotation check..."
               :: events (resolveRiotApiKey e st) in
    if truthy key then
      let o := checkChampionRotation_try e key st in
      mkOutcome (Ok tt) (final o)
        (pre ++ events o
             ++ match res o with
                | Ok _ => []
                | Throw _ => [Log LError "Error in scheduled rotation check"]
                end)
    else
      mkOutcome (Ok tt) st
        (pre ++ [Log LError
                   "Riot API key is not configured for scheduled function"]).
Proof. exact (check_unfold_on this_engine e st key). Qed.

#[local] Hint Resolve resolve_quiet fetch_quiet : quiet.

Lemma check_total (e : env) (st : store) : res (checkChampionRotation e st) = Ok tt.
Proof. exact (check_total_on this_engine e st). Qed.

Lemma check_shape (e : env) (st : store) : run_shape e st (checkChampionRotation e st).
Proof.
  destruct (resolve_total e st) as [key Hk].
  rewrite (check_unfold e st key Hk); cbv zeta.
  destruct (truthy key).
  2:{ apply run_no_write; cbn; auto with quiet. }
  destruct (res (fetchRiotRotation e key st)) as [[payload ri]|err] eqn:Hf.
  2:{ rewrite (try_fetch_throws e st key err Hf); cbn.
      apply run_no_write; cbn; auto with quiet. }
  destruct (rotation_ids payload) as [ids|err] eqn:Hids.
  2:{ rewrite (try_ids_throw e st key payload ri err Hf Hids); cbn.
      apply run_no_write; cbn; auto with quiet. }
  destruct (Array_join "," ids) as [signature|err] eqn:Hjoin.
  2:{ rewrite (try_join_throws e st key payload ri ids err Hf Hids Hjoin); cbn.
      apply run_no_write; cbn; auto with quiet. }
  destruct (firestore_get e) as [err|] eqn:Hget.
  { rewrite (try_read_throws e st key payload ri ids signature err
               Hf Hids Hjoin Hget); cbn.
    apply run_no_write; cbn; auto 7 with quiet. }
  rewrite (try_run e st key payload ri ids signature Hf Hids Hjoin Hget);
    cbv zeta.
  destruct (strict_equals _ _).
  { apply run_no_write; cbn; auto 8 with quiet. }
  destruct (firestore_set e _) as [err|] eqn:Hset; cbn [res final events].
  - apply run_write_rejected
      with (payload := payload) (ids := ids) (signature := signature)
           (pre := ((Log LInfo "Running scheduled Riot rotation check..."
                       :: events (resolveRiotApiKey e st))
                    ++ events (fetchRiotRotation e key st)
                    ++ [DocGet "riot" "rotation"])%list)
           (post := [Log LError "Error in scheduled rotation check"]);
      cbn [final events]; auto 8 with quiet.
    + unfold accepted. now rewrite Hset.
    + now rewrite <- !app_assoc.
  - apply run_write_accepted
      with (payload := payload) (ids := ids) (signature := signature)
           (pre := ((Log LInfo "Running scheduled Riot rotation check..."
                       :: events (resolveRiotApiKey e st))
                    ++ events (fetchRiotRotation e key st)
                    ++ [DocGet "riot" "rotation"])%list)
           (mid := [Log LInfo
                      "New rotation detected and saved. Sending FCM notification to topic 'riot-rotation'..."])
           (post := match messaging_send e rotation_message with
                    | Ok _ => [Log LInfo "FCM notification sent"]
                    | Throw _ => [Log LError "Error in scheduled rotation check"]
                    end);
      cbn [final events]; auto 8 with quiet.
    + unfold accepted. now rewrite Hset.
    + destruct (messaging_send e rotation_message); auto with quiet.
    + destruct (messaging_send e rotation_message); cbn;
        now rewrite <- !app_assoc.
Qed.

Lemma check_run (e : env) (st : store) (key payload : value)
    (ri : RateInfo) (ids : list value) (signature : string) :
  res (resolveRiotApiKey e st) = Ok key ->
  truthy key = true ->
  res (fetchRiotRotation e key st) = Ok (payload, ri) ->
  rotation_ids payload = Ok ids ->
  Array_join "," ids = Ok signature ->
  firestore_get e = None ->
  let rec := rotation_record signature ids payload (server_time e) in
  let o := checkChampionRotation e st in
  if strict_equals (stored_signature st) (VStr signature)
  then final o = st /\ quiet (events o)
  else if accepted e rec
       then final o = Some rec /\ writes (events o) = 1%nat /\
            publishes (events o) = 1%nat /\
            write_then_publish (events o) = true
       else final o = st /\ writes (events o) = 1%nat /\
            publishes (events o) = 0%nat /\
            write_then_publish (events o) = false.
Proof. exact (check_run_on this_engine e st key payload ri ids signature). Qed.

Lemma stored_signature_record (signature : string) (ids : list value)
    (payload : value) (now : Z) :
  stored_signature (Some (rotation_record signature ids payload now))
  = VStr signature.
Proof. reflexivity. Qed.

Lemma rotation_ids_sorted (payload : value) (ids : list value) (zs : list Z) :
  rotation_ids payload = Ok ids ->
  numbers ids = Some zs ->
  StronglySorted Z.le zs /\ Array_join "," ids = Ok (comma_joined zs).
Proof.
  unfold rotation_ids, rotation_ids_on.
  destruct (get_prop payload "freeChampionIds") as [v|err]; cbn; [|discriminate].
  intros Hs Hn.
  pose proof (numbers_inv _ _ Hn) as Hids.
  destruct (sorted_numbers _ _ _ Hs Hn) as (l & _ & ->).
  split; [apply sortZ_sorted|].
  now rewrite Hids, Array_join_nums.
Qed.

Lemma computeSignature_nums (payload : value) (l : list Z) :
  get_prop payload "freeChampionIds" = Ok (VArr (map VNum l)) ->
  computeSignature payload = Ok (comma_joined (sortZ l)).
Proof.
  intro H.
  unfold computeSignature, computeSignature_on, rotation_ids_on.
  rewrite H. cbn [rbind array_sort array_join subtract this_engine].
  rewrite Array_sort_nums. cbn [rbind]. apply Array_join_nums.
Qed.

Lemma map_status_code_table (status : Z) :
  map_status_code (VNum status) = spec_error_class (Some status).
Proof.
  unfold map_status_code; cbn [strict_equals].
  destruct (Z.eqb_spec status 429) as [->|H429]; [reflexivity|].
  destruct (Z.eqb_spec status 404) as [->|H404]; [reflexivity|].
  destruct (Z.eqb_spec status 403) as [->|H403]; [reflexivity|].
  destruct (Z.eqb_spec status 401) as [->|H401]; [reflexivity|].
  destruct (Z.eqb_spec status 400) as [->|H400]; [reflexivity|].
  unfold spec_error_class.
  destruct status as [|p|p]; try reflexivity.
  do 9 (destruct p as [p|p|]; try reflexivity); congruence.
Qed.

Lemma slice0_length (n : nat) (s : string) :
  (String.length (slice0 n s) <= n)%nat.
Proof.
  unfold slice0. revert s.
  induction n as [|n IH]; intros [|c s]; cbn; try lia.
  specialize (IH s). lia.
Qed.

Lemma slice0_within (n : nat) (s : string) : text_within n (VStr (slice0 n s)).
Proof. exists (slice0 n s). split; [reflexivity | apply slice0_length]. Qed.

Lemma truthy_not_nullish (v : value) : truthy v = true -> nullish v = false.
Proof. now destruct v. Qed.

Lemma get_prop_total (v : value) (k : string) :
  nullish v = false -> get_prop v k = Ok (field_or_undefined v k).
Proof.
  unfold field_or_undefined.
  destruct v; cbn; try discriminate; try reflexivity.
  now destruct (lookup k props).
Qed.

Lemma legacy_upstreamMessage_same (response : Response) (errorBody : string) :
  Legacy.upstreamMessage_of response errorBody
  = upstreamMessage_of response errorBody.
Proof.
  unfold Legacy.upstreamMessage_of, upstreamMessage_of.
  destruct (JSON_parse response) as [parsed|err]; cbn [rbind]; [|reflexivity].
  destruct (get_prop parsed "status") as [status|err]; cbn [rbind]; [|reflexivity].
  destruct status as [| |b|n|s|elems|props]; try reflexivity;
    [destruct b | destruct n | destruct s]; reflexivity.
Qed.

Lemma js_or_first (a b : value) : truthy a = true -> js_or a b = a.
Proof. unfold js_or. now intros ->. Qed.

Lemma js_or_second (a b : value) : truthy a = false -> js_or a b = b.
Proof. unfold js_or. now intros ->. Qed.

Lemma env_fine_upstream (payload : value) :
  upstream_payload (env_fine payload) payload.
Proof.
  exists (VStr "RGAPI-sample"), (mkRateInfo VNull VNull VNull VNull).
  split; [reflexivity|]. intro st. split; reflexivity.
Defined.

End RunFacts.

Import JS Effects Functions Observe Reference Samples SortFacts RunFacts.

#[local] Hint Resolve quiet_nil quiet_app quiet_log quiet_http quiet_docget
  resolve_quiet fetch_quiet : quiet.

(* ================================================================== *)
(** ** The signature *)
(* ================================================================== *)

(** C3: for every list of integers and every permutation of it, the
    signature the scheduled job computes (copy, sort ascending by number,
    join with a comma) is the same for the list and for the permuted
    list: it is the comma-joined decimal form of the ascending
    rearrangement of the ids. *)
Theorem signature_permutation_invariant (l l' : list Z)
    (payload payload' : value) :
  Permutation l l' ->
  get_prop payload "freeChampionIds" = Ok (VArr (map VNum l)) ->
  get_prop payload' "freeChampionIds" = Ok (VArr (map VNum l')) ->
  computeSignature payload = computeSignature payload' /\
  exists sorted,
    Permutation l sorted /\ StronglySorted Z.le sorted /\
    computeSignature payload = Ok (comma_joined sorted).
Proof.
  intros Hp H H'.
  rewrite (computeSignature_nums payload l H).
  rewrite (computeSignature_nums payload' l' H').
  split.
  - now rewrite (sortZ_permutation_invariant l l' Hp).
  - exists (sortZ l).
    split; [apply sortZ_perm|]. split; [apply sortZ_sorted | reflexivity].
Qed.

Lemma signature_permutation_invariant_witness :
  computeSignature (VObj [("freeChampionIds", VArr [VNum 3; VNum 1; VNum 2])])
  = computeSignature (VObj [("freeChampionIds", VArr [VNum 2; VNum 3; VNum 1])])
  /\ computeSignature (VObj [("freeChampionIds", VArr [VNum 3; VNum 1; VNum 2])])
     = Ok "1,2,3".
Proof.
  destruct (signature_permutation_invariant [3; 1; 2] [2; 3; 1]
              (VObj [("freeChampionIds", VArr [VNum 3; VNum 1; VNum 2])])
              (VObj [("freeChampionIds", VArr [VNum 2; VNum 3; VNum 1])]))
    as [Hsame _]; [|reflexivity|reflexivity|].
  - apply perm_trans with (l' := [3; 2; 1]).
    + apply perm_skip, perm_swap.
    + apply perm_trans with (l' := [2; 3; 1]);
        [apply perm_swap | apply Permutation_refl].
  - split; [exact Hsame | reflexivity].
Defined.

(** C4: for every payload whose [freeChampionIds] field is absent, null
    or not an array, the signature computation returns the empty string
    and does not throw.  A payload is a JSON object; the statement holds
    more widely, for every value on which a property can be read. *)
Theorem signature_of_malformed_payload (payload : value) :
  nullish payload = false ->
  (forall elems, get_prop payload "freeChampionIds" <> Ok (VArr elems)) ->
  computeSignature payload = Ok EmptyString.
Proof.
  intros Hnull Hna.
  unfold computeSignature, computeSignature_on, rotation_ids_on.
  destruct (get_prop payload "freeChampionIds") as [v|err] eqn:Hg.
  - destruct v; try reflexivity. now elim (Hna elems).
  - destruct payload; cbn in Hg; try discriminate.
    destruct (lookup _ _); discriminate.
Qed.

Lemma signature_of_malformed_payload_witness :
  computeSignature (VObj [("maxNewPlayerLevel", VNum 10)]) = Ok EmptyString
  /\ computeSignature (VObj [("freeChampionIds", VNull)]) = Ok EmptyString
  /\ computeSignature (VObj [("freeChampionIds", VStr "1,2,3")])
     = Ok EmptyString.
Proof.
  split; [|split]; apply signature_of_malformed_payload;
    solve [reflexivity | intros elems; discriminate].
Defined.

(** The body [null] is valid JSON but not an object: reading the field
    throws, the job catches it, logs the error and writes nothing. *)
Example null_payload_is_caught :
  computeSignature VNull
  = Throw (TypeError "Cannot read properties of null")
  /\ checkChampionRotation (env_fine VNull) None
     = mkOutcome (Ok tt) None
         [ Log LInfo "Running scheduled Riot rotation check...";
           HttpGet riot_url "RGAPI-sample";
           Log LConsole "RGAPI-sample";
           Log LError "Error in scheduled rotation check" ].
Proof. split; reflexivity. Qed.

(** An id that is an object with an own [toString] property cannot be
    made a string: a single one is not compared by the sort and throws
    in the join; among other ids it throws in the comparator already. *)
Example unconvertible_id_throws :
  rotation_ids rotation_unconvertible
  = Ok [VObj [("toString", VNum 1)]]
  /\ computeSignature rotation_unconvertible
     = Throw (TypeError "Cannot convert object to primitive value")
  /\ rotation_ids
       (VObj [("freeChampionIds",
               VArr [VNum 7; VObj [("toString", VNum 1)]])])
     = Throw (TypeError "Cannot convert object to primitive value").
Proof. repeat split. Qed.

(* ================================================================== *)
(** ** The scheduled job *)
(* ================================================================== *)

(** C1, as the code has it: in the scheduled job, whatever
    implementation of subtraction, [sort] and [join] the engine
    provides, for every fetched payload and every stored state whose
    read succeeds:
    - when the signature computation completes, a store write occurs
      exactly when the stored signature differs ([!==]) from the newly
      computed one, a missing record counting as the signature [null];
      when Firestore accepts the write, the write is followed by one
      notification publish, again exactly in that case; when the
      signatures are equal there is neither a write nor a publish and
      the store is left as it was; when no record is stored the
      signatures always differ;
    - when the signature computation throws (the body [null], an id
      that cannot be converted to a string), there is neither a write
      nor a publish, the store is left as it was and the error is
      logged, also when no record is stored. *)
Theorem change_detection (js : engine) (e : env) (st : store)
    (payload : value) :
  upstream_payload e payload ->
  firestore_get e = None ->
  let o := checkChampionRotation_on js e st in
  match computeSignature_on js payload with
  | Ok signature =>
      let same := strict_equals (stored_signature st) (VStr signature) in
      (writes (events o) = 1%nat <-> same = false) /\
      (same = true ->
         writes (events o) = 0%nat /\ publishes (events o) = 0%nat /\
         final o = st) /\
      ((forall data, firestore_set e data = None) ->
         (write_then_publish (events o) = true <-> same = false) /\
         (same = false -> publishes (events o) = 1%nat)) /\
      (st = None -> same = false)
  | Throw _ =>
      writes (events o) = 0%nat /\ publishes (events o) = 0%nat /\
      final o = st /\
      logged LError "Error in scheduled rotation check" (events o)
  end.
Proof.
  intros (key & ri & Ht & Hup) Hget.
  destruct (Hup st) as [Hk Hf].
  cbv zeta.
  destruct (computeSignature_on js payload) as [signature|err] eqn:Hsig.
  - destruct (computeSignature_on_inv js payload signature Hsig)
      as (ids & Hids & Hjoin).
    pose proof (check_run_on js e st key payload ri ids signature
                  Hk Ht Hf Hids Hjoin Hget) as Hrun.
    cbv zeta in Hrun.
    destruct (strict_equals (stored_signature st) (VStr signature)) eqn:Hsame.
    + destruct Hrun as [Hfin [Hw Hp]].
      split; [split; [intro Hw1; rewrite Hw in Hw1|]; discriminate|].
      split; [intros _; auto|].
      split.
      * intros _. split; [|discriminate].
        split; [|discriminate].
        rewrite quiet_no_sequence by (now split). discriminate.
      * intros ->. cbn in Hsame. discriminate.
    + split; [destruct (accepted e _); tauto|].
      split; [discriminate|].
      split; [|reflexivity].
      intros Hacc. unfold accepted in Hrun. rewrite Hacc in Hrun. tauto.
  - destruct (check_signature_throws_on js e st key payload ri err
                Hk Ht Hf Hsig) as (Hfin & [Hw Hp] & Hlog).
    auto.
Qed.

Lemma change_detection_witness :
  writes (events (checkChampionRotation (env_fine rotation_54) None)) = 1%nat
  /\ write_then_publish
       (events (checkChampionRotation (env_fine rotation_54) None)) = true.
Proof.
  pose proof (change_detection this_engine (env_fine rotation_54) None
                rotation_54 (env_fine_upstream rotation_54) eq_refl)
    as H.
  cbv zeta in H.
  change (computeSignature_on this_engine rotation_54)
    with (Ok (A := string) "4,5") in H.
  destruct H as (Hw & _ & Hseq & Hnone).
  specialize (Hnone eq_refl).
  split.
  - now apply Hw.
  - now apply (Hseq (fun _ => eq_refl)).
Defined.

(** C1, as the specification words it, fails on a first run: with no
    stored record and every Firestore and messaging call succeeding, the
    body [null], or a body whose only id is the object
    [{"toString": 1}], is fetched and nothing is written or published. *)
Lemma first_run_without_write :
  (upstream_payload (env_fine VNull) VNull /\
   firestore_get (env_fine VNull) = None /\
   (forall data, firestore_set (env_fine VNull) data = None) /\
   let o := checkChampionRotation (env_fine VNull) None in
   writes (events o) = 0%nat /\ publishes (events o) = 0%nat /\
   write_then_publish (events o) = false /\ final o = None) /\
  (upstream_payload (env_fine rotation_unconvertible) rotation_unconvertible /\
   firestore_get (env_fine rotation_unconvertible) = None /\
   (forall data, firestore_set (env_fine rotation_unconvertible) data = None) /\
   let o := checkChampionRotation (env_fine rotation_unconvertible) None in
   writes (events o) = 0%nat /\ publishes (events o) = 0%nat /\
   write_then_publish (events o) = false /\ final o = None).
Proof.
  split.
  - split; [apply env_fine_upstream|].
    split; [reflexivity|]. split; [reflexivity|].
    cbv zeta. repeat split.
  - split; [apply env_fine_upstream|].
    split; [reflexivity|]. split; [reflexivity|].
    cbv zeta. repeat split.
Qed.

(** C6: two invocations of the scheduled job in succession, with the
    same upstream payload and starting from a stored signature that
    differs from the payload's (or from no record), perform exactly one
    store write and one notification publish, both in the first
    invocation; the second performs neither and leaves the store as the
    first left it. *)
Theorem rerun_is_noop (e1 e2 : env) (st : store) (payload : value)
    (signature : string) :
  upstream_payload e1 payload ->
  upstream_payload e2 payload ->
  computeSignature payload = Ok signature ->
  strict_equals (stored_signature st) (VStr signature) = false ->
  firestore_get e1 = None ->
  firestore_get e2 = None ->
  (forall data, firestore_set e1 data = None) ->
  let o1 := checkChampionRotation e1 st in
  let o2 := checkChampionRotation e2 (final o1) in
  writes (events o1) = 1%nat /\ publishes (events o1) = 1%nat /\
  writes (events o2) = 0%nat /\ publishes (events o2) = 0%nat /\
  final o2 = final o1.
Proof.
  intros (k1 & r1 & Ht1 & Hup1) (k2 & r2 & Ht2 & Hup2) Hsig Hdiff Hg1 Hg2 Hset.
  apply computeSignature_inv in Hsig as (ids & Hids & Hjoin).
  cbv zeta.
  destruct (Hup1 st) as [Hk1 Hf1].
  pose proof (check_run e1 st k1 payload r1 ids signature
                Hk1 Ht1 Hf1 Hids Hjoin Hg1) as Hrun1.
  cbv zeta in Hrun1. rewrite Hdiff in Hrun1.
  unfold accepted in Hrun1. rewrite Hset in Hrun1.
  destruct Hrun1 as (Hfin1 & Hw1 & Hp1 & _).
  destruct (Hup2 (final (checkChampionRotation e1 st))) as [Hk2 Hf2].
  pose proof (check_run e2 _ k2 payload r2 ids signature
                Hk2 Ht2 Hf2 Hids Hjoin Hg2) as Hrun2.
  cbv zeta in Hrun2.
  assert (Hstored : stored_signature (final (checkChampionRotation e1 st))
                    = VStr signature)
    by (rewrite Hfin1; apply stored_signature_record).
  rewrite Hstored in Hrun2.
  cbn [strict_equals] in Hrun2. rewrite String.eqb_refl in Hrun2.
  destruct Hrun2 as (Hfin2 & Hw2 & Hp2).
  repeat split; assumption.
Qed.

Lemma rerun_is_noop_witness :
  let o1 := checkChampionRotation (env_fine rotation_54) (Some stale_record) in
  let o2 := checkChampionRotation (env_publish_fails rotation_54) (final o1) in
  writes (events o1) = 1%nat /\ publishes (events o1) = 1%nat /\
  writes (events o2) = 0%nat /\ publishes (events o2) = 0%nat /\
  final o2 = final o1.
Proof.
  apply (rerun_is_noop (env_fine rotation_54) (env_publish_fails rotation_54)
           (Some stale_record) rotation_54 "4,5");
    try reflexivity.
  - apply env_fine_upstream.
  - exists (VStr "RGAPI-sample"), (mkRateInfo VNull VNull VNull VNull).
    split; [reflexivity|]. intro st. split; reflexivity.
Defined.

(** When the store already holds the payload's signature, the first of
    the two invocations is a no-op as well. *)
Example rerun_on_current_store :
  checkChampionRotation (env_fine rotation_312)
    (Some [("signature", VStr "1,2,3")])
  = mkOutcome (Ok tt) (Some [("signature", VStr "1,2,3")])
      [ Log LInfo "Running scheduled Riot rotation check...";
        HttpGet riot_url "RGAPI-sample";
        Log LConsole "RGAPI-sample";
        DocGet "riot" "rotation";
        Log LInfo "Rotation unchanged, nothing to do." ].
Proof. reflexivity. Qed.

(** Case analysis on the shape of the run of the job from [st]. *)
Ltac run_cases e st :=
  let Hfin := fresh "Hfin" in
  let Hev := fresh "Hev" in
  let Hacc := fresh "Hacc" in
  let Hids := fresh "Hids" in
  let Hjoin := fresh "Hjoin" in
  let Hpre := fresh "Hpre" in
  let Hmid := fresh "Hmid" in
  let Hpost := fresh "Hpost" in
  let Hq := fresh "Hq" in
  destruct (check_shape e st)
    as [Hfin Hq
       | ?payload ?ids ?signature ?pre ?post Hids Hjoin ?rec
           Hacc Hpre Hpost Hfin Hev
       | ?payload ?ids ?signature ?pre ?mid ?post Hids Hjoin ?rec
           Hacc Hpre Hmid Hpost Hfin Hev].

(** C7: in the scheduled job, when the upstream fetch fails the store is
    not touched (no write, no publish, same document); when the store
    write is rejected no publish is attempted and the document stays as
    it was; when the publish fails after an accepted write the document
    stays as written: there is no second write and no retry. *)
Theorem failure_isolation (e : env) (st : store) :
  let o := checkChampionRotation e st in
  (forall err,
     upstream_failure e err ->
     final o = st /\ writes (events o) = 0%nat /\ publishes (events o) = 0%nat)
  /\
  (forall data,
     In (DocSet "riot" "rotation" data) (events o) ->
     accepted e data = false ->
     publishes (events o) = 0%nat /\ final o = st)
  /\
  (forall data err,
     In (DocSet "riot" "rotation" data) (events o) ->
     accepted e data = true ->
     messaging_send e rotation_message = Throw err ->
     final o = Some data /\ writes (events o) = 1%nat /\
     publishes (events o) = 1%nat).
Proof.
  cbv zeta. split; [|split].
  - intros err (key & Ht & Hup).
    destruct (Hup st) as [Hk Hf].
    rewrite (check_unfold e st key Hk); cbv zeta. rewrite Ht.
    rewrite (try_fetch_throws e st key err Hf); cbn [res final events].
    split; [reflexivity|].
    apply quiet_app; auto with quiet.
  - intros data Hin Hrej.
    run_cases e st.
    + now apply quiet_no_write in Hin.
    + split; [|exact Hfin]. rewrite Hev.
      now apply count_write_only.
    + rewrite Hev in Hin.
      apply in_single_write in Hin;
        [subst data; congruence | apply Hpre
         | now apply writes_after_publish].
  - intros data err Hin Hacc' Hsend.
    run_cases e st.
    + now apply quiet_no_write in Hin.
    + rewrite Hev in Hin.
      apply in_single_write in Hin; [subst data; congruence | apply Hpre | apply Hpost].
    + rewrite Hev in Hin |- *.
      apply in_single_write in Hin;
        [| apply Hpre | now apply writes_after_publish].
      subst data. split; [exact Hfin|].
      destruct (count_write_publish pre mid post "riot" "rotation" rec
                  rotation_message Hpre Hmid Hpost) as (Hw & Hp & _).
      now split.
Qed.

Lemma failure_isolation_witness :
  final (checkChampionRotation env_network_down (Some stale_record))
  = Some stale_record
  /\ publishes (events (checkChampionRotation (env_write_fails rotation_54)
                          (Some stale_record))) = 0%nat
  /\ final (checkChampionRotation (env_write_fails rotation_54)
              (Some stale_record)) = Some stale_record
  /\ final (checkChampionRotation (env_publish_fails rotation_54) None)
     = Some (rotation_record "4,5" [VNum 4; VNum 5] rotation_54 1700000000).
Proof.
  split; [|split; [|split]].
  - destruct (failure_isolation env_network_down (Some stale_record))
      as (Hfetch & _ & _).
    apply (Hfetch (TypeError "fetch failed")).
    exists (VStr "RGAPI-sample").
    split; [reflexivity|]. intro st. split; reflexivity.
  - destruct (failure_isolation (env_write_fails rotation_54)
                (Some stale_record)) as (_ & Hwrite & _).
    apply (Hwrite (rotation_record "4,5" [VNum 4; VNum 5] rotation_54
                     1700000000)); [vm_compute; tauto | reflexivity].
  - destruct (failure_isolation (env_write_fails rotation_54)
                (Some stale_record)) as (_ & Hwrite & _).
    apply (Hwrite (rotation_record "4,5" [VNum 4; VNum 5] rotation_54
                     1700000000)); [vm_compute; tauto | reflexivity].
  - destruct (failure_isolation (env_publish_fails rotation_54) None)
      as (_ & _ & Hpublish).
    apply (Hpublish _ (ServiceError "messaging/server-unavailable"));
      [vm_compute; tauto | reflexivity | reflexivity].
Defined.

(** C8: every record the scheduled job writes has the four fields of
    [rotation_record]; its [signature] is its [freeChampionIds] joined
    with a comma, and when these are numbers they are in ascending order
    and the signature is their sorted, comma-joined decimal form.  An
    accepted write makes the record the whole stored document, whatever
    was stored before. *)
Theorem written_record_invariant (e : env) (st : store)
    (data : list (string * value)) :
  In (DocSet "riot" "rotation" data) (events (checkChampionRotation e st)) ->
  exists signature ids payload,
    data = rotation_record signature ids payload (server_time e) /\
    lookup "signature" data = Some (VStr signature) /\
    lookup "freeChampionIds" data = Some (VArr ids) /\
    Array_join "," ids = Ok signature /\
    (forall zs, numbers ids = Some zs ->
                StronglySorted Z.le zs /\ signature = comma_joined zs) /\
    (accepted e data = true ->
       final (checkChampionRotation e st) = Some data).
Proof.
  intro Hin.
  run_cases e st.
  - now apply quiet_no_write in Hin.
  - rewrite Hev in Hin.
    apply in_single_write in Hin; [| apply Hpre | apply Hpost].
    subst data. exists signature, ids, payload.
    split; [reflexivity|]. split; [reflexivity|]. split; [reflexivity|].
    split; [exact Hjoin|]. split.
    + intros zs Hzs.
      destruct (rotation_ids_sorted payload ids zs Hids Hzs) as [Hs Hj].
      split; [exact Hs | congruence].
    + congruence.
  - rewrite Hev in Hin.
    apply in_single_write in Hin;
      [| apply Hpre | now apply writes_after_publish].
    subst data. exists signature, ids, payload.
    split; [reflexivity|]. split; [reflexivity|]. split; [reflexivity|].
    split; [exact Hjoin|]. split.
    + intros zs Hzs.
      destruct (rotation_ids_sorted payload ids zs Hids Hzs) as [Hs Hj].
      split; [exact Hs | congruence].
    + intros _. exact Hfin.
Qed.

Lemma written_record_invariant_witness :
  exists signature ids payload,
    final (checkChampionRotation (env_fine rotation_54) (Some stale_record))
    = Some (rotation_record signature ids payload 1700000000) /\
    Array_join "," ids = Ok signature /\
    signature = "4,5".
Proof.
  destruct (written_record_invariant (env_fine rotation_54) (Some stale_record)
              (rotation_record "4,5" [VNum 4; VNum 5] rotation_54 1700000000))
    as (signature & ids & payload & Hdata & Hs & Hi & Hjoin & Hsorted & Hfin).
  - vm_compute. tauto.
  - exists signature, ids, payload.
    injection Hi as <-.
    split; [rewrite (Hfin eq_refl); now rewrite Hdata|].
    split; [exact Hjoin|].
    now apply (Hsorted [4; 5]).
Defined.

(** A field of the old document that the new record does not have is
    gone after the write. *)
Example write_replaces_document :
  lookup "note" stale_record = Some (VStr "written by hand")
  /\ match final (checkChampionRotation (env_fine rotation_54)
                     (Some stale_record)) with
     | Some data => lookup "note" data = None
                    /\ map fst data = ["signature"; "freeChampionIds";
                                       "rawResponse"; "updatedAt"]
     | None => False
     end.
Proof. split; [reflexivity|]. vm_compute. split; reflexivity. Qed.

(** C10: the scheduled job never passes an exception to its caller:
    whatever the secret manager, the upstream fetch, the store read, the
    store write and the publish answer, it returns normally; and when
    its [try] block throws, the error is logged. *)
Theorem never_throws (e : env) (st : store) :
  let o := checkChampionRotation e st in
  res o = Ok tt /\
  (forall key err,
     res (resolveRiotApiKey e st) = Ok key ->
     truthy key = true ->
     res (checkChampionRotation_try e key st) = Throw err ->
     logged LError "Error in scheduled rotation check" (events o)).
Proof.
  cbv zeta. split; [apply check_total|].
  intros key err Hk Ht Hthrow.
  rewrite (check_unfold e st key Hk); cbv zeta. rewrite Ht, Hthrow.
  unfold logged; cbn [events].
  apply in_or_app; right. apply in_or_app; right. now left.
Qed.

Lemma never_throws_witness :
  res (checkChampionRotation (env_write_fails rotation_54) None) = Ok tt
  /\ logged LError "Error in scheduled rotation check"
       (events (checkChampionRotation (env_write_fails rotation_54) None)).
Proof.
  destruct (never_throws (env_write_fails rotation_54) None) as [Hok Hlog].
  split; [exact Hok|].
  apply (Hlog (VStr "RGAPI-sample") (ServiceError "DEADLINE_EXCEEDED"));
    reflexivity.
Defined.

(** Each external failure makes the [try] block throw. *)
Example try_block_failures :
  is_ok (res (checkChampionRotation_try env_network_down
                (VStr "RGAPI-sample") None)) = false
  /\ is_ok (res (checkChampionRotation_try
                   (sample_env (Ok (json_response 200 rotation_54))
                      (Some (ServiceError "UNAVAILABLE")) None (Ok "id"))
                   (VStr "RGAPI-sample") None)) = false
  /\ is_ok (res (checkChampionRotation_try (env_write_fails rotation_54)
                   (VStr "RGAPI-sample") None)) = false
  /\ is_ok (res (checkChampionRotation_try (env_publish_fails rotation_54)
                   (VStr "RGAPI-sample") None)) = false.
Proof. repeat split; reflexivity. Qed.

(* ================================================================== *)
(** ** The callable proxy *)
(* ================================================================== *)

(** C2: in the callable proxy, for every upstream failure the error
    class is the one the table gives for the upstream HTTP status: 400
    invalid-argument, 401 unauthenticated, 403 permission-denied, 404
    not-found, 429 resource-exhausted, and internal for every other
    status and for a failure without a status; an error mapped from an
    upstream status carries that status, the rate info and the upstream
    message as its details. *)
Theorem proxy_error_mapping (e : env) (st : store) (err : error) :
  upstream_failure e err ->
  exists message details,
    res (championRotation e st)
    = Throw (HttpsError (spec_error_class (upstream_status err)) message details)
    /\
    forall status rateInfo upstreamMessage,
      err = UpstreamError status rateInfo upstreamMessage ->
      status <> 0 ->
      details = Some (mkDetails (VNum status) (Some rateInfo) upstreamMessage).
Proof.
  intros (key & Ht & Hup). destruct (Hup st) as [Hk Hf].
  unfold championRotation.
  rewrite bind_unfold, Hk, resolve_final, Ht; cbn [negb res].
  rewrite try_catch_unfold, bind_unfold, Hf; cbn [res final].
  rewrite fetch_final.
  unfold championRotation_catch.
  destruct err as [m|m|m|status ri um|c m d]; cbn;
    try (eexists _, _; split; [reflexivity | intros; discriminate]).
  destruct (Z.eqb_spec status 0) as [->|Hnz]; cbn.
  - eexists _, _; split; [reflexivity|]. intros ? ? ? [= <- _ _] H. now elim H.
  - rewrite map_status_code_table.
    eexists _, _; split; [reflexivity|].
    now intros ? ? ? [= <- <- <-] _.
Qed.

Lemma proxy_error_mapping_witness :
  exists message details,
    res (championRotation (env_upstream_error 429 rate_limit_body) None)
    = Throw (HttpsError "resource-exhausted" message details)
    /\ details = Some (mkDetails (VNum 429)
                         (Some (mkRateInfo VNull VNull VNull VNull))
                         (VStr "Rate limit exceeded")).
Proof.
  destruct (proxy_error_mapping (env_upstream_error 429 rate_limit_body) None
              (UpstreamError 429 (mkRateInfo VNull VNull VNull VNull)
                 (VStr "Rate limit exceeded")))
    as (message & details & Hres & Hdetails).
  - exists (VStr "RGAPI-sample").
    split; [reflexivity|]. intro st. split; reflexivity.
  - exists message, details. split; [exact Hres|].
    apply (Hdetails 429 _ _ eq_refl). discriminate.
Defined.

(** A failure without a status: the call to the upstream API rejects. *)
Example proxy_network_failure :
  res (championRotation env_network_down None)
  = Throw (HttpsError "internal" "Failed to contact Riot API" None).
Proof. reflexivity. Qed.

(* ================================================================== *)
(** ** The upstream message *)
(* ================================================================== *)

(** Where the extraction of the upstream message truncates: the JSON
    dump of the parsed body and, when the body does not parse, the raw
    text are cut to 2000 code units.  A message field of the parsed body
    (the nested status message, or else the top-level one) takes
    precedence over both and is not cut.  Both files extract the same
    message. *)
Lemma upstream_message_bound (response : Response) (errorBody : string) :
  let m := upstreamMessage_of response errorBody in
  Legacy.upstreamMessage_of response errorBody = m /\
  match r_json response with
  | Some parsed =>
      match message_field parsed with
      | Some field => m = field
      | None => text_within 2000 m
      end
  | None => m = VStr (slice0 2000 errorBody) /\ text_within 2000 m
  end.
Proof.
  cbv zeta. split; [apply legacy_upstreamMessage_same|].
  unfold upstreamMessage_of, JSON_parse.
  destruct (r_json response) as [parsed|]; cbn [rbind].
  2:{ split; [reflexivity | apply slice0_within]. }
  unfold message_field.
  destruct (nullish parsed) eqn:Hn.
  { destruct parsed; try discriminate; cbn; apply slice0_within. }
  rewrite !(get_prop_total parsed _ Hn); cbn [rbind].
  set (status := field_or_undefined parsed "status").
  destruct (truthy status) eqn:Hs.
  - rewrite (get_prop_total status _ (truthy_not_nullish _ Hs)); cbn [rbind].
    destruct (truthy (field_or_undefined status "message")); [reflexivity|].
    destruct (truthy (field_or_undefined parsed "message")); [reflexivity|].
    destruct (JSON_stringify parsed); apply slice0_within.
  - cbn [rbind]. rewrite Hs. cbn [truthy].
    destruct (truthy (field_or_undefined parsed "message")); [reflexivity|].
    destruct (JSON_stringify parsed); apply slice0_within.
Qed.

(** C5: the code breaks the bound of 2000 characters the specification
    puts on every extracted message.  The two fallbacks of the extraction
    are cut with [slice(0, 2000)], the message fields are not: on a 503
    answer whose body carries a message field of 2001 code units, the
    fetcher of the callable file throws an error with the whole field as
    its upstream message, and the HTTP proxy of the older file replies
    with the whole nested field. *)
Theorem upstream_message_untruncated :
  res (fetchRiotRotation (env_upstream_error 503 long_message_body)
         (VStr "RGAPI-sample") None)
  = Throw (UpstreamError 503 (mkRateInfo VNull VNull VNull VNull)
             (VStr long_text)) /\
  lookup "upstreamMessage"
    match res (Legacy.championRotation
                 (env_upstream_error 503 long_nested_body) "GET" None) with
    | Ok reply => match Legacy.json reply with VObj props => props | _ => [] end
    | Throw _ => []
    end
  = Some (VStr long_text) /\
  String.length long_text = 2001%nat /\
  ~ text_within 2000 (VStr long_text).
Proof.
  repeat split; try (vm_compute; reflexivity).
  intros (s & [= <-] & Hlen).
  vm_compute in Hlen.
  repeat (apply le_S_n in Hlen). inversion Hlen.
Qed.

(* ================================================================== *)
(** ** The key resolver *)
(* ================================================================== *)

(** C9: the key resolver returns the managed secret when it is
    retrievable and non-empty; when retrieval throws it logs a warning
    and goes on; otherwise it returns the first non-empty value among
    RIOT_KEY, RIOT_API_KEY and RIOT_TOKEN, in that order, and a falsy
    value ([undefined] or the empty string) when none is set.  It never
    touches the store. *)
Theorem key_resolution (e : env) (st : store) :
  let o := resolveRiotApiKey e st in
  final o = st /\
  (exists key,
     res o = Ok key /\
     match first_nonempty (key_candidates e) with
     | Some s => key = VStr s
     | None => truthy key = false /\ (key = VUndefined \/ key = VStr EmptyString)
     end) /\
  (forall s, secret e = Ok s -> s <> EmptyString ->
             res o = Ok (VStr s) /\ events o = []) /\
  (forall err, secret e = Throw err ->
     events o = [Log LWarn
                   "Unable to read RIOT_KEY secret, falling back to env/config"]).
Proof.
  cbv zeta. split; [apply resolve_final|].
  unfold resolveRiotApiKey, key_candidates, env_var.
  rewrite bind_unfold, try_catch_unfold, bind_unfold.
  split; [|split].
  - destruct (secret e) as [[|c s]|err];
      destruct (process_env e "RIOT_KEY") as [[|c1 s1]|];
      destruct (process_env e "RIOT_API_KEY") as [[|c2 s2]|];
      destruct (process_env e "RIOT_TOKEN") as [[|c3 s3]|];
      cbn; eexists; (split; [reflexivity|]); auto.
  - intros s Hs Hne. rewrite Hs. cbn.
    destruct s as [|c s]; [now elim Hne|]. now cbn.
  - intros err Hs. rewrite Hs. reflexivity.
Qed.

Lemma key_resolution_witness :
  res (resolveRiotApiKey env_token_only None) = Ok (VStr "RGAPI-token")
  /\ events (resolveRiotApiKey env_token_only None)
     = [Log LWarn "Unable to read RIOT_KEY secret, falling back to env/config"].
Proof.
  destruct (key_resolution env_token_only None)
    as (_ & (key & Hres & Hkey) & _ & Hwarn).
  split.
  - rewrite Hres. f_equal. exact Hkey.
  - exact (Hwarn _ eq_refl).
Defined.

(* ================================================================== *)
(** ** Worked scenarios *)
(* ================================================================== *)

(** The upstream returns the ids 5 and 4 while the stored signature
    is "1,2,3": the new signature is "4,5", the record is written with
    the ids 4 and 5, and the notification goes to the fixed topic with
    the fixed title. *)
Example scenario_change :
  let o := checkChampionRotation (env_fine rotation_54) (Some stale_record) in
  res o = Ok tt /\
  final o = Some (rotation_record "4,5" [VNum 4; VNum 5] rotation_54 1700000000) /\
  events o =
    [ Log LInfo "Running scheduled Riot rotation check...";
      HttpGet riot_url "RGAPI-sample";
      Log LConsole "RGAPI-sample";
      DocGet "riot" "rotation";
      DocSet "riot" "rotation"
        (rotation_record "4,5" [VNum 4; VNum 5] rotation_54 1700000000);
      Log LInfo
        "New rotation detected and saved. Sending FCM notification to topic 'riot-rotation'...";
      Send rotation_message;
      Log LInfo "FCM notification sent" ] /\
  m_topic rotation_message = "riot-rotation" /\
  m_title rotation_message = "New free champion rotation!".
Proof. cbv zeta. repeat split; reflexivity. Qed.

(** An upstream 429 whose body carries the nested status message
    "Rate limit exceeded" reaches the caller of the proxy as
    resource-exhausted with that message in the details. *)
Example scenario_rate_limited :
  res (championRotation (env_upstream_error 429 rate_limit_body) None)
  = Throw (HttpsError "resource-exhausted" "Upstream Riot API error"
             (Some (mkDetails (VNum 429)
                      (Some (mkRateInfo VNull VNull VNull VNull))
                      (VStr "Rate limit exceeded")))).
Proof. reflexivity. Qed.

(** The HTTP proxy of the older file refuses every method but GET
    with status 405 and an Allow header, before any credential is read,
    and relays an upstream error status as it is. *)
Example scenario_legacy_proxy :
  Legacy.championRotation env_network_down "POST" None
  = mkOutcome
      (Ok (Legacy.mkReply (Some "GET") 405
             (VObj [("error", VStr "Only GET is supported")])))
      None []
  /\ match res (Legacy.championRotation
                  (env_upstream_error 429 rate_limit_body) "GET" None) with
     | Ok reply => Legacy.status reply = 429
     | Throw _ => False
     end.
Proof. split; reflexivity. Qed.

(* ================================================================== *)
(** ** The handlers as a whole *)
(* ================================================================== *)

Module CallFacts.
Import JS Effects Functions Observe Reference Samples SortFacts RunFacts Calls.
Local Open Scope js_scope.

Lemma calls_app (a b : list event) : calls (a ++ b) = (calls a ++ calls b)%list.
Proof.
  induction a as [|ev r IH]; cbn; [reflexivity|].
  destruct (call_of ev); cbn; now rewrite IH.
Qed.

Lemma requests_app (a b : list event) :
  requests (a ++ b) = (requests a ++ requests b)%list.
Proof.
  induction a as [|ev r IH]; cbn; [reflexivity|].
  destruct ev; cbn; now rewrite IH.
Qed.

Lemma requests_log (lvl : level) (msg : string) (evs : list event) :
  requests (Log lvl msg :: evs) = requests evs.
Proof. reflexivity. Qed.

Lemma calls_log (lvl : level) (msg : string) (evs : list event) :
  calls (Log lvl msg :: evs) = calls evs.
Proof. reflexivity. Qed.

Lemma console_app (a b : list event) :
  console (a ++ b) = (console a ++ console b)%list.
Proof.
  induction a as [|ev r IH]; cbn; [reflexivity|].
  destruct ev as [[] msg| | | |]; cbn; now rewrite IH.
Qed.

(** *** The key resolver, in full *)

Lemma resolve_outcome (e : env) (st : store) :
  exists key,
    resolveRiotApiKey e st
    = mkOutcome (Ok key) st
        match secret e with
        | Ok _ => []
        | Throw _ =>
            [Log LWarn
               "Unable to read RIOT_KEY secret, falling back to env/config"]
        end
    /\ match credential e with
       | Some s => key = VStr s /\ truthy key = true
       | None => truthy key = false
       end.
Proof.
  unfold resolveRiotApiKey, credential, key_candidates, env_var.
  rewrite bind_unfold, try_catch_unfold, bind_unfold.
  destruct (secret e) as [[|c s]|err];
    destruct (process_env e "RIOT_KEY") as [[|c1 s1]|];
    destruct (process_env e "RIOT_API_KEY") as [[|c2 s2]|];
    destruct (process_env e "RIOT_TOKEN") as [[|c3 s3]|];
    cbn; eexists; (split; [reflexivity|]); auto.
Qed.

(** *** The fetcher, in full *)

Lemma fetch_events (e : env) (token : string) (st : store) :
  events (fetchRiotRotation e (VStr token) st)
  = HttpGet riot_url token
      :: match fetch e riot_url token with
         | Throw _ => []
         | Ok response =>
             Log LConsole token
               :: (if response_ok response then []
                   else match r_text response with
                        | Ok _ => [Log LError "Riot API error"]
                        | Throw _ => []
                        end)
         end.
Proof.
  unfold fetchRiotRotation, bind, http_get; cbn.
  destruct (fetch e _ _) as [response|err]; cbn; [|reflexivity].
  destruct (response_ok response); cbn.
  - destruct (response_json response); reflexivity.
  - destruct (r_text response); reflexivity.
Qed.

Lemma fetch_calls (e : env) (token : string) (st : store) :
  calls (events (fetchRiotRotation e (VStr token) st)) = [CallHttp].
Proof.
  rewrite fetch_events; cbn.
  destruct (fetch e _ _) as [response|err]; cbn; [|reflexivity].
  destruct (response_ok response); [reflexivity|].
  now destruct (r_text response).
Qed.

Lemma fetch_requests (e : env) (token : string) (st : store) :
  requests (events (fetchRiotRotation e (VStr token) st)) = [(riot_url, token)].
Proof.
  rewrite fetch_events; cbn.
  destruct (fetch e _ _) as [response|err]; cbn; [|reflexivity].
  destruct (response_ok response); [reflexivity|].
  now destruct (r_text response).
Qed.

(** The fetcher sees its key as a string. *)
Lemma fetch_token (e : env) (key : value) (st : store) :
  res (fetchRiotRotation e key st)
  = match ToString key with
    | Ok token => res (fetchRiotRotation e (VStr token) st)
    | Throw err => Throw err
    end.
Proof.
  unfold fetchRiotRotation. rewrite !bind_unfold.
  now destruct (ToString key).
Qed.

(** What the fetcher settles to, read off the environment. *)
Lemma fetch_result (e : env) (token : string) (st : store) :
  res (fetchRiotRotation e (VStr token) st)
  = match fetch e riot_url token with
    | Throw err => Throw err
    | Ok response =>
        let rateInfo :=
          mkRateInfo (headers_get response "x-app-rate-limit")
                     (headers_get response "x-app-rate-limit-count")
                     (headers_get response "x-method-rate-limit")
                     (headers_get response "x-method-rate-limit-count") in
        if response_ok response then
          match response_json response with
          | Ok payload => Ok (payload, rateInfo)
          | Throw err => Throw err
          end
        else
          match r_text response with
          | Ok errorBody =>
              Throw (UpstreamError (r_status response) rateInfo
                       (upstreamMessage_of response errorBody))
          | Throw err => Throw err
          end
    end.
Proof.
  unfold fetchRiotRotation, bind, http_get; cbn.
  destruct (fetch e _ _) as [response|err]; cbn; [|reflexivity].
  destruct (response_ok response); cbn.
  - destruct (response_json response); reflexivity.
  - destruct (r_text response); reflexivity.
Qed.

(** *** The callable proxy, in full *)

Lemma callable_unfold (e : env) (st : store) (key : value) :
  res (resolveRiotApiKey e st) = Ok key ->
  championRotation e st =
    if truthy key then
      let o := fetchRiotRotation e key st in
      match res o with
      | Ok r => mkOutcome (Ok (fst r)) st
                  (events (resolveRiotApiKey e st) ++ events o)
      | Throw err =>
          if truthy (error_status err) then
            mkOutcome
              (Throw (HttpsError (map_status_code (error_status err))
                        "Upstream Riot API error"
                        (Some (mkDetails (error_status err)
                                 (error_rateInfo err)
                                 (error_upstreamMessage err)))))
              st (events (resolveRiotApiKey e st) ++ events o)
          else
            mkOutcome
              (Throw (HttpsError "internal" "Failed to contact Riot API" None))
              st
              (events (resolveRiotApiKey e st) ++ events o
                 ++ [Log LError "Failed to reach Riot API"])
      end
    else
      mkOutcome (Throw (HttpsError "internal" "Backend misconfiguration" None))
        st
        (events (resolveRiotApiKey e st)
           ++ [Log LError "Riot API key is not configured"]).
Proof.
  intro Hk. unfold championRotation.
  rewrite bind_unfold, Hk, resolve_final.
  destruct (truthy key); cbn [negb].
  - rewrite try_catch_unfold, bind_unfold. cbv zeta.
    destruct (res (fetchRiotRotation e key st)) as [r|err] eqn:Hf;
      cbn [res final events ret]; rewrite ?fetch_final.
    + now rewrite app_nil_r.
    + unfold championRotation_catch.
      destruct (truthy (error_status err)); cbn; [now rewrite app_nil_r|].
      reflexivity.
  - reflexivity.
Qed.

(** *** The HTTP proxy of the older file, in full *)

Lemma legacy_unfold (e : env) (st : store) (key : value) :
  res (resolveRiotApiKey e st) = Ok key ->
  Legacy.championRotation e "GET" st =
    let pre := events (resolveRiotApiKey e st) in
    let failed (sent : list event) :=
      mkOutcome
        (Ok (Legacy.mkReply None 500
               (VObj [("error", VStr "Failed to contact Riot API")])))
        st
        (pre ++ sent ++ [Log LError "Failed to reach Riot API"]) in
    if truthy key then
      match ToString key with
      | Throw _ => failed []
      | Ok token =>
          match fetch e riot_url token with
          | Throw _ => failed [HttpGet riot_url token]
          | Ok response =>
              if response_ok response then
                match response_json response with
                | Ok payload =>
                    mkOutcome (Ok (Legacy.mkReply None 200 payload)) st
                      (pre ++ [HttpGet riot_url token])
                | Throw _ => failed [HttpGet riot_url token]
                end
              else
                match r_text response with
                | Ok errorBody =>
                    mkOutcome
                      (Ok (Legacy.mkReply None (r_status response)
                             (VObj
                                [("error", VStr "Upstream Riot API error");
                                 ("status", VNum (r_status response));
                                 ("rateInfo",
                                  Legacy.rateInfo_value
                                    (mkRateInfo
                                       (headers_get response "x-app-rate-limit")
                                       (headers_get response "x-app-rate-limit-count")
                                       (headers_get response "x-method-rate-limit")
                                       (headers_get response "x-method-rate-limit-count")));
                                 ("upstreamMessage",
                                  Legacy.upstreamMessage_of response errorBody)])))
                      st
                      (pre ++ [HttpGet riot_url token;
                               Log LError "Riot API error"])
                | Throw _ => failed [HttpGet riot_url token]
                end
          end
      end
    else
      mkOutcome
        (Ok (Legacy.mkReply None 500
               (VObj [("error", VStr "Backend misconfiguration")])))
        st (pre ++ [Log LError "Riot API key is not configured"]).
Proof.
  unfold Legacy.championRotation, resolveRiotApiKey.
  change (String.eqb "GET" "GET") with true. cbn [negb].
  rewrite !bind_unfold, !try_catch_unfold, !bind_unfold.
  destruct (secret e) as [s|err]; cbn [lift ret throw res final events emit].
  all: intros [= <-]; cbv zeta.
  all: match goal with
       | |- context [truthy ?k] => destruct (truthy k); cbn [negb]
       end.
  all: try reflexivity.
  all: rewrite !try_catch_unfold, !bind_unfold.
  all: match goal with
       | |- context [ToString ?k] => destruct (ToString k) as [token|err']
       end; cbn [lift ret throw res final events]; try reflexivity.
  all: rewrite ?bind_unfold; unfold http_get; cbn [res final events].
  all: match goal with
       | |- context [fetch ?x ?u ?t] => destruct (fetch x u t) as [response|err'']
       end; cbn; try reflexivity.
  all: match goal with
       | |- context [response_ok ?r] =>
           destruct (response_ok r); cbn;
           [destruct (response_json r); cbn; reflexivity
           |destruct (r_text r); cbn; reflexivity]
       end.
Qed.

(** *** The scheduled job after its fetch *)

Lemma try_after_fetch (e : env) (key : value) (st : store) :
  exists tail n,
    events (checkChampionRotation_try e key st)
    = (events (fetchRiotRotation e key st) ++ tail)%list /\
    requests tail = [] /\ console tail = [] /\
    calls tail = firstn n [CallGet; CallSet; CallSend].
Proof.
  destruct (res (fetchRiotRotation e key st)) as [[payload ri]|err] eqn:Hf.
  2:{ rewrite (try_fetch_throws e st key err Hf).
      exists [], 0%nat. cbn. now rewrite app_nil_r. }
  destruct (rotation_ids payload) as [ids|err] eqn:Hids.
  2:{ rewrite (try_ids_throw e st key payload ri err Hf Hids).
      exists [], 0%nat. cbn. now rewrite app_nil_r. }
  destruct (Array_join "," ids) as [signature|err] eqn:Hjoin.
  2:{ rewrite (try_join_throws e st key payload ri ids err Hf Hids Hjoin).
      exists [], 0%nat. cbn. now rewrite app_nil_r. }
  destruct (firestore_get e) as [err|] eqn:Hget.
  { rewrite (try_read_throws e st key payload ri ids signature err
               Hf Hids Hjoin Hget).
    exists [DocGet "riot" "rotation"], 1%nat. now cbn. }
  rewrite (try_run e st key payload ri ids signature Hf Hids Hjoin Hget);
    cbv zeta.
  destruct (strict_equals _ _); cbn [events].
  { eexists _, 1%nat. rewrite <- app_assoc. split; [reflexivity|]. now cbn. }
  destruct (firestore_set e _); cbn [events].
  { eexists _, 2%nat. rewrite <- app_assoc. split; [reflexivity|]. now cbn. }
  eexists _, 3%nat. rewrite <- app_assoc. split; [reflexivity|].
  destruct (messaging_send e rotation_message); now cbn.
Qed.

End CallFacts.

Import JS Effects Functions Observe Reference Samples SortFacts RunFacts.
Import Calls CallFacts.

(** X3: each of the three handlers sends exactly one request when a
    credential is configured, to the fixed Riot URL and with that
    credential as its token, and sends none when no credential is
    configured: no retry, no other address, no other token. *)
Theorem requests_use_credential (e : env) (st : store) :
  let expected := match credential e with
                  | Some s => [(riot_url, s)]
                  | None => []
                  end in
  requests (events (championRotation e st)) = expected /\
  requests (events (checkChampionRotation e st)) = expected /\
  requests (events (Legacy.championRotation e "GET" st)) = expected.
Proof.
  cbv zeta.
  destruct (resolve_outcome e st) as (key & Hres & Hcred).
  assert (Hk : res (resolveRiotApiKey e st) = Ok key) by now rewrite Hres.
  assert (Hpre : requests (events (resolveRiotApiKey e st)) = []).
  { rewrite Hres; cbn. now destruct (secret e). }
  rewrite (callable_unfold e st key Hk), (legacy_unfold e st key Hk),
    (check_unfold e st key Hk); cbv zeta.
  destruct (credential e) as [s|].
  - destruct Hcred as [-> Ht]. rewrite Ht. cbn [ToString].
    split; [|split].
    + destruct (res (fetchRiotRotation e (VStr s) st)) as [r|err] eqn:Hf.
      * cbn [events]. now rewrite requests_app, Hpre, fetch_requests.
      * destruct (truthy (error_status err)); cbn [events];
          rewrite !requests_app, Hpre, fetch_requests; reflexivity.
    + destruct (try_after_fetch e (VStr s) st) as (tail & n & Hev & Hreq & _).
      cbn [events]. rewrite Hev.
      rewrite !requests_app, requests_log, Hpre, fetch_requests, Hreq.
      cbn [app].
      now destruct (res (checkChampionRotation_try e (VStr s) st)).
    + destruct (fetch e riot_url s) as [response|err]; cbv zeta.
      2:{ cbn [events]. now rewrite requests_app, Hpre. }
      destruct (response_ok response).
      * destruct (response_json response); cbn [events];
          now rewrite requests_app, Hpre.
      * destruct (r_text response); cbn [events];
          now rewrite requests_app, Hpre.
  - rewrite Hcred. cbn [events].
    rewrite !requests_app, !requests_log, Hpre. repeat split.
Qed.

(** X4: without a credential (secret unavailable or empty, the three
    environment variables unset or empty) no handler calls any external
    service: the callable proxy throws internal / Backend
    misconfiguration, the HTTP proxy replies 500 with that same message,
    and the scheduled job returns normally with the store as it was. *)
Theorem missing_credential (e : env) (st : store) :
  credential e = None ->
  res (championRotation e st)
  = Throw (HttpsError "internal" "Backend misconfiguration" None) /\
  (exists reply,
     res (Legacy.championRotation e "GET" st) = Ok reply /\
     Legacy.status reply = 500 /\
     Legacy.json reply = VObj [("error", VStr "Backend misconfiguration")]) /\
  res (checkChampionRotation e st) = Ok tt /\
  final (checkChampionRotation e st) = st /\
  calls (events (championRotation e st)) = [] /\
  calls (events (Legacy.championRotation e "GET" st)) = [] /\
  calls (events (checkChampionRotation e st)) = [].
Proof.
  intro Hnone.
  destruct (resolve_outcome e st) as (key & Hres & Hcred).
  rewrite Hnone in Hcred.
  assert (Hk : res (resolveRiotApiKey e st) = Ok key) by now rewrite Hres.
  assert (Hpre : calls (events (resolveRiotApiKey e st)) = []).
  { rewrite Hres; cbn. now destruct (secret e). }
  rewrite (callable_unfold e st key Hk), (legacy_unfold e st key Hk),
    (check_unfold e st key Hk); cbv zeta.
  rewrite Hcred. cbn [res final events].
  rewrite !calls_app, !calls_log, Hpre.
  repeat split. eexists; repeat split.
Qed.

Lemma missing_credential_witness :
  res (championRotation
         (mkEnv (Ok EmptyString) (fun _ => None)
                (fun _ _ => Throw (TypeError "fetch failed"))
                None (fun _ => None) (fun _ => Ok "id") 0) None)
  = Throw (HttpsError "internal" "Backend misconfiguration" None).
Proof.
  apply (missing_credential
           (mkEnv (Ok EmptyString) (fun _ => None)
                  (fun _ _ => Throw (TypeError "fetch failed"))
                  None (fun _ => None) (fun _ => Ok "id") 0) None).
  reflexivity.
Defined.

Lemma map_status_code_class (v : value) : In (map_status_code v) error_classes.
Proof.
  unfold map_status_code, error_classes.
  destruct (strict_equals v (VNum 429)); [cbn; tauto|].
  destruct (strict_equals v (VNum 404)); [cbn; tauto|].
  destruct (strict_equals v (VNum 403)); [cbn; tauto|].
  destruct (strict_equals v (VNum 401)); [cbn; tauto|].
  destruct (strict_equals v (VNum 400)); cbn; tauto.
Qed.

(** X5: the callable proxy never touches the store and never publishes,
    and whatever goes wrong the only exception that leaves it is an
    [HttpsError] whose code is one of the six classes; when it carries
    details, its code is the table's class for the non-zero upstream
    status in the details, and without details it is internal. *)
Theorem callable_only_https_errors (e : env) (st : store) :
  let o := championRotation e st in
  final o = st /\
  writes (events o) = 0%nat /\ publishes (events o) = 0%nat /\
  match res o with
  | Ok _ => True
  | Throw (HttpsError code _ details) =>
      In code error_classes /\
      match details with
      | Some d =>
          exists status,
            status <> 0 /\ d_status d = VNum status /\
            code = spec_error_class (Some status)
      | None => code = "internal"
      end
  | Throw _ => False
  end.
Proof.
  cbv zeta.
  destruct (resolve_outcome e st) as (key & Hres & _).
  assert (Hk : res (resolveRiotApiKey e st) = Ok key) by now rewrite Hres.
  pose proof (resolve_quiet e st) as Hq.
  pose proof (fetch_quiet e key st) as Hfq.
  rewrite (callable_unfold e st key Hk); cbv zeta.
  destruct (truthy key).
  2:{ cbn [res final events].
      assert (Hq2 : quiet (events (resolveRiotApiKey e st)
                            ++ [Log LError "Riot API key is not configured"]))
        by auto with quiet.
      destruct Hq2 as [W P].
      repeat split; try assumption; cbn; tauto. }
  destruct (res (fetchRiotRotation e key st)) as [r|err].
  { cbn [res final events].
    destruct (quiet_app _ _ Hq Hfq) as [W P]. now repeat split. }
  destruct (truthy (error_status err)) eqn:Hs; cbn [res final events].
  - destruct (quiet_app _ _ Hq Hfq) as [W P].
    repeat split; try assumption; [apply map_status_code_class|].
    destruct err as [m|m|m|status ri um|c m d]; try discriminate.
    cbn in Hs |- *. exists status.
    split; [intros ->; discriminate|].
    split; [reflexivity | apply map_status_code_table].
  - assert (Hq3 : quiet (events (resolveRiotApiKey e st)
                          ++ events (fetchRiotRotation e key st)
                          ++ [Log LError "Failed to reach Riot API"]))
      by auto with quiet.
    destruct Hq3 as [W P].
    repeat split; try assumption. cbn; tauto.
Qed.

(** X6: the callable proxy returns normally exactly when a credential
    is configured and the upstream answers 2xx with a body that parses,
    and what it returns is that parsed body, unchanged. *)
Theorem callable_success_iff (e : env) (st : store) (payload : value) :
  res (championRotation e st) = Ok payload <->
  exists s response,
    credential e = Some s /\
    fetch e riot_url s = Ok response /\
    response_ok response = true /\
    response_json response = Ok payload.
Proof.
  destruct (resolve_outcome e st) as (key & Hres & Hcred).
  assert (Hk : res (resolveRiotApiKey e st) = Ok key) by now rewrite Hres.
  rewrite (callable_unfold e st key Hk); cbv zeta.
  split.
  - destruct (truthy key) eqn:Ht; [|discriminate].
    destruct (credential e) as [s|]; [|congruence].
    destruct Hcred as [-> _].
    rewrite fetch_result. cbn [ToString].
    destruct (fetch e riot_url s) as [response|err] eqn:Hfe; cbv zeta.
    2:{ cbn. destruct (truthy (error_status err)); discriminate. }
    destruct (response_ok response) eqn:Hok.
    + destruct (response_json response) as [p|err] eqn:Hj.
      * cbn. intros [= <-]. now exists s, response.
      * cbn. destruct (truthy (error_status err)); discriminate.
    + destruct (r_text response); cbn;
        match goal with
        | |- context [if ?b then _ else _] => destruct b; discriminate
        end.
  - intros (s & response & Hc & Hf & Hok & Hj).
    rewrite Hc in Hcred. destruct Hcred as [-> Ht]. rewrite Ht.
    rewrite fetch_result. cbn [ToString]. rewrite Hf. cbv zeta.
    rewrite Hok, Hj. reflexivity.
Qed.

Lemma callable_success_iff_witness :
  res (championRotation (env_fine rotation_54) None) = Ok rotation_54.
Proof.
  apply (callable_success_iff (env_fine rotation_54) None rotation_54).
  exists "RGAPI-sample", (json_response 200 rotation_54).
  repeat split.
Defined.

Lemma fetch_console (e : env) (token : string) (st : store) :
  console (events (fetchRiotRotation e (VStr token) st))
  = match fetch e riot_url token with
    | Ok _ => [token]
    | Throw _ => []
    end.
Proof.
  rewrite fetch_events; cbn.
  destruct (fetch e _ _) as [response|err]; cbn; [|reflexivity].
  destruct (response_ok response); [reflexivity|].
  now destruct (r_text response).
Qed.

Lemma console_log_other (lvl : level) (msg : string) (evs : list event) :
  lvl <> LConsole -> console (Log lvl msg :: evs) = console evs.
Proof. destruct lvl; cbn; congruence. Qed.

(** X7: in the callable and the scheduled handler the credential is
    written to the console in clear, once, whenever the upstream call
    answers at all (the [console.log(riotApiKey)] of the fetcher), and
    nothing else is; the HTTP proxy of the older file writes nothing to
    the console. *)
Theorem credential_reaches_console (e : env) (st : store) :
  let logged_keys := match credential e with
                     | Some s => match fetch e riot_url s with
                                 | Ok _ => [s]
                                 | Throw _ => []
                                 end
                     | None => []
                     end in
  console (events (championRotation e st)) = logged_keys /\
  console (events (checkChampionRotation e st)) = logged_keys /\
  console (events (Legacy.championRotation e "GET" st)) = [].
Proof.
  cbv zeta.
  destruct (resolve_outcome e st) as (key & Hres & Hcred).
  assert (Hk : res (resolveRiotApiKey e st) = Ok key) by now rewrite Hres.
  assert (Hpre : console (events (resolveRiotApiKey e st)) = []).
  { rewrite Hres; cbn. now destruct (secret e). }
  rewrite (callable_unfold e st key Hk), (legacy_unfold e st key Hk),
    (check_unfold e st key Hk); cbv zeta.
  destruct (credential e) as [s|].
  - destruct Hcred as [-> Ht]. rewrite Ht. cbn [ToString].
    split; [|split].
    + destruct (res (fetchRiotRotation e (VStr s) st)) as [r|err];
        [|destruct (truthy (error_status err))]; cbn [events];
        rewrite !console_app, Hpre, fetch_console; cbn [ToString app];
        destruct (fetch e riot_url s); reflexivity.
    + destruct (try_after_fetch e (VStr s) st) as (tail & n & Hev & _ & Hcon & _).
      cbn [events]. rewrite Hev.
      rewrite !console_app, console_log_other, Hpre, fetch_console, Hcon
        by discriminate.
      cbn [ToString app].
      destruct (res (checkChampionRotation_try e (VStr s) st));
        destruct (fetch e riot_url s); reflexivity.
    + destruct (fetch e riot_url s) as [response|err]; cbv zeta.
      2:{ cbn [events]. now rewrite console_app, Hpre. }
      destruct (response_ok response).
      * destruct (response_json response); cbn [events];
          now rewrite console_app, Hpre.
      * destruct (r_text response); cbn [events];
          now rewrite console_app, Hpre.
  - rewrite Hcred. cbn [events].
    rewrite !console_app.
    rewrite !console_log_other by discriminate.
    rewrite !Hpre. repeat split.
Qed.

(** X8: the external calls of a run of the scheduled job are a prefix
    of: upstream fetch, store read, store write, publish.  So each is made
    at most once, the store is never read before the upstream answered,
    never written before it was read, and nothing is published before the
    write; the prefix is empty exactly when no credential is configured. *)
Theorem scheduled_call_order (e : env) (st : store) :
  exists n,
    calls (events (checkChampionRotation e st)) = firstn n protocol /\
    (n = 0%nat <-> credential e = None).
Proof.
  destruct (resolve_outcome e st) as (key & Hres & Hcred).
  assert (Hk : res (resolveRiotApiKey e st) = Ok key) by now rewrite Hres.
  assert (Hpre : calls (events (resolveRiotApiKey e st)) = []).
  { rewrite Hres; cbn. now destruct (secret e). }
  rewrite (check_unfold e st key Hk); cbv zeta.
  destruct (credential e) as [s|].
  - destruct Hcred as [-> Ht]. rewrite Ht.
    destruct (try_after_fetch e (VStr s) st) as (tail & n & Hev & _ & _ & Hcalls).
    exists (S n). cbn [events]. rewrite Hev.
    rewrite !calls_app, calls_log, Hpre, fetch_calls, Hcalls.
    split; [|split; discriminate].
    cbn [app protocol firstn]. 
    destruct (res (checkChampionRotation_try e (VStr s) st)); cbn;
      now rewrite app_nil_r.
  - rewrite Hcred. exists 0%nat. cbn [events].
    rewrite !calls_app, calls_log, Hpre. now split.
Qed.

(** X9: when the store read rejects, the scheduled job returns normally
    with no write, no publish and the store as it was, whatever the
    other services answer. *)
Theorem read_failure_isolation (e : env) (st : store) (err : error) :
  firestore_get e = Some err ->
  let o := checkChampionRotation e st in
  res o = Ok tt /\ final o = st /\
  writes (events o) = 0%nat /\ publishes (events o) = 0%nat.
Proof.
  intros Hget; cbv zeta.
  split; [apply check_total|].
  destruct (resolve_total e st) as [key Hk].
  rewrite (check_unfold e st key Hk); cbv zeta.
  assert (Hdone : forall (o : outcome unit) (tail : list event),
             final o = st -> quiet (events o) -> quiet tail ->
             final o = st /\
             writes ((Log LInfo "Running scheduled Riot rotation check..."
                        :: events (resolveRiotApiKey e st))
                     ++ events o ++ tail) = 0%nat /\
             publishes ((Log LInfo "Running scheduled Riot rotation check..."
                           :: events (resolveRiotApiKey e st))
                        ++ events o ++ tail) = 0%nat).
  { intros o tail Hfin Hq Ht. split; [exact Hfin|].
    apply quiet_app; auto with quiet. }
  destruct (truthy key).
  2:{ cbn [final events]. split; [reflexivity|].
      apply quiet_app; auto with quiet. }
  cbn [final events].
  destruct (res (fetchRiotRotation e key st)) as [[payload ri]|ferr] eqn:Hf.
  2:{ rewrite (try_fetch_throws e st key ferr Hf).
      apply Hdone; cbn; auto with quiet. }
  destruct (rotation_ids payload) as [ids|ierr] eqn:Hids.
  2:{ rewrite (try_ids_throw e st key payload ri ierr Hf Hids).
      apply Hdone; cbn; auto with quiet. }
  destruct (Array_join "," ids) as [signature|jerr] eqn:Hjoin.
  2:{ rewrite (try_join_throws e st key payload ri ids jerr Hf Hids Hjoin).
      apply Hdone; cbn; auto with quiet. }
  rewrite (try_read_throws e st key payload ri ids signature err
             Hf Hids Hjoin Hget).
  apply Hdone; cbn; auto with quiet.
Qed.

Lemma read_failure_isolation_witness :
  final (checkChampionRotation
           (sample_env (Ok (json_response 200 rotation_54))
              (Some (ServiceError "UNAVAILABLE")) None (Ok "id"))
           (Some stale_record))
  = Some stale_record.
Proof.
  apply (read_failure_isolation
           (sample_env (Ok (json_response 200 rotation_54))
              (Some (ServiceError "UNAVAILABLE")) None (Ok "id"))
           (Some stale_record) (ServiceError "UNAVAILABLE") eq_refl).
Defined.

(** X1: the HTTP proxy of the older file always answers and never
    throws, whatever the method and the environment; it leaves the store
    alone and calls nothing but the upstream API, at most once.  A method
    other than GET is refused with 405, an Allow header and an error
    body before anything else happens.  The reply to a GET is determined
    by the environment: without a credential it is 500 / Backend
    misconfiguration; when the upstream answers 2xx with a body that
    parses it is 200 with the parsed body, unchanged; when the upstream
    answers another status with a readable body it is that status, with
    the status, the rate info and the upstream message in the body; and
    it is 500 / Failed to contact Riot API when the call, the parsing or
    the reading of the body fails. *)
Theorem legacy_always_replies (e : env) (req_method : string) (st : store) :
  let o := Legacy.championRotation e req_method st in
  final o = st /\
  (calls (events o) = [] \/ calls (events o) = [CallHttp]) /\
  exists reply,
    res o = Ok reply /\
    (req_method <> "GET" ->
       events o = [] /\ Legacy.status reply = 405 /\
       Legacy.allow reply = Some "GET" /\
       Legacy.json reply = VObj [("error", VStr "Only GET is supported")]) /\
    (req_method = "GET" ->
       Legacy.allow reply = None /\
       let failed :=
         Legacy.status reply = 500 /\
         Legacy.json reply
         = VObj [("error", VStr "Failed to contact Riot API")] in
       match credential e with
       | None =>
           Legacy.status reply = 500 /\
           Legacy.json reply = VObj [("error", VStr "Backend misconfiguration")]
       | Some s =>
           match fetch e riot_url s with
           | Throw _ => failed
           | Ok response =>
               if response_ok response then
                 match response_json response with
                 | Ok payload =>
                     Legacy.status reply = 200 /\ Legacy.json reply = payload
                 | Throw _ => failed
                 end
               else
                 match r_text response with
                 | Ok errorBody =>
                     Legacy.status reply = r_status response /\
                     Legacy.json reply
                     = VObj
                         [("error", VStr "Upstream Riot API error");
                          ("status", VNum (r_status response));
                          ("rateInfo",
                           Legacy.rateInfo_value
                             (mkRateInfo
                                (headers_get response "x-app-rate-limit")
                                (headers_get response "x-app-rate-limit-count")
                                (headers_get response "x-method-rate-limit")
                                (headers_get response "x-method-rate-limit-count")));
                          ("upstreamMessage",
                           Legacy.upstreamMessage_of response errorBody)]
                 | Throw _ => failed
                 end
           end
       end).
Proof.
  cbv zeta.
  destruct (String.eqb_spec req_method "GET") as [->|Hne].
  2:{ unfold Legacy.championRotation.
      apply String.eqb_neq in Hne. rewrite Hne. cbn.
      split; [reflexivity|]. split; [now left|].
      eexists; split; [reflexivity|]. split; [now intros _|].
      intros ->. now rewrite String.eqb_refl in Hne. }
  destruct (resolve_outcome e st) as (key & Hres & Hcred).
  assert (Hk : res (resolveRiotApiKey e st) = Ok key) by now rewrite Hres.
  assert (Hpre : calls (events (resolveRiotApiKey e st)) = []).
  { rewrite Hres; cbn. now destruct (secret e). }
  rewrite (legacy_unfold e st key Hk); cbv zeta.
  destruct (credential e) as [s|] eqn:Hc.
  2:{ rewrite Hcred. cbn [res final events]. rewrite calls_app, Hpre.
      split; [reflexivity|]. split; [now left|].
      eexists; split; [reflexivity|].
      split; [intros H; now elim H|]. intros _. now repeat split. }
  destruct Hcred as [-> Ht]. rewrite Ht. cbn [ToString].
  destruct (fetch e riot_url s) as [response|err] eqn:Hf.
  2:{ cbn [res final events]. rewrite !calls_app, Hpre.
      split; [reflexivity|]. split; [now right|].
      eexists; split; [reflexivity|].
      split; [intros H; now elim H|]. intros _. now repeat split. }
  destruct (response_ok response) eqn:Hok.
  - destruct (response_json response) as [payload|err] eqn:Hj;
      cbn [res final events]; rewrite !calls_app, Hpre;
      (split; [reflexivity|]); (split; [now right|]);
      (eexists; split; [reflexivity|]);
      (split; [intros H; now elim H|]); intros _;
      now repeat split.
  - destruct (r_text response) as [errorBody|err] eqn:Ht';
      cbn [res final events]; rewrite !calls_app, Hpre;
      (split; [reflexivity|]); (split; [now right|]);
      (eexists; split; [reflexivity|]);
      (split; [intros H; now elim H|]); intros _;
      now repeat split.
Qed.

(** X2: against an upstream as HTTP has it, the callable proxy and the
    HTTP proxy of the older file agree: where the one returns a payload
    the other replies 200 with the same payload; where the one throws an
    error mapped from an upstream status the other replies with that very
    status and the same upstream message; where the one throws without
    details the other replies 500. *)
Theorem proxies_agree (e : env) (st : store) :
  upstream_wellformed e ->
  match res (championRotation e st) with
  | Ok payload =>
      res (Legacy.championRotation e "GET" st)
      = Ok (Legacy.mkReply None 200 payload)
  | Throw (HttpsError code _ (Some d)) =>
      exists reply status,
        res (Legacy.championRotation e "GET" st) = Ok reply /\
        Legacy.status reply = status /\
        d_status d = VNum status /\
        code = spec_error_class (Some status) /\
        reply_field "upstreamMessage" reply = Some (d_upstreamMessage d)
  | Throw (HttpsError _ _ None) =>
      exists reply,
        res (Legacy.championRotation e "GET" st) = Ok reply /\
        Legacy.status reply = 500
  | Throw _ => False
  end.
Proof.
  intro Hwf.
  destruct (resolve_outcome e st) as (key & Hres & Hcred).
  assert (Hk : res (resolveRiotApiKey e st) = Ok key) by now rewrite Hres.
  rewrite (callable_unfold e st key Hk), (legacy_unfold e st key Hk);
    cbv zeta.
  destruct (credential e) as [s|];
    [destruct Hcred as [-> Ht]; rewrite Ht
    |rewrite Hcred; cbn; eexists; now split].
  rewrite fetch_result. cbn [ToString].
  specialize (Hwf riot_url s).
  destruct (fetch e riot_url s) as [response|err]; cbv zeta.
  2:{ destruct err; try discriminate; cbn; eexists; now split. }
  destruct Hwf as [Hnz Htext].
  destruct (response_ok response).
  - unfold response_json in *.
    destruct (r_text response) as [body|err]; cbn [rbind].
    + unfold JSON_parse. destruct (r_json response); cbn;
        [reflexivity | eexists; now split].
    + destruct err; try discriminate; cbn; eexists; now split.
  - destruct (r_text response) as [body|err].
    + cbn [error_status truthy].
      apply Z.eqb_neq in Hnz. rewrite Hnz. cbn [negb res].
      eexists _, (r_status response). cbn.
      rewrite legacy_upstreamMessage_same, map_status_code_table.
      now repeat split.
    + destruct err; try discriminate; cbn; eexists; now split.
Qed.

Lemma upstream_error_wellformed :
  upstream_wellformed (env_upstream_error 429 rate_limit_body).
Proof. intros url token. cbn. split; [discriminate | exact I]. Defined.

Lemma proxies_agree_witness :
  exists reply,
    res (Legacy.championRotation (env_upstream_error 429 rate_limit_body)
           "GET" None) = Ok reply /\
    Legacy.status reply = 429 /\
    reply_field "upstreamMessage" reply = Some (VStr "Rate limit exceeded").
Proof.
  pose proof (proxies_agree (env_upstream_error 429 rate_limit_body) None
                upstream_error_wellformed) as H.
  cbn in H. destruct H as (reply & status & Hr & Hs & Hd & _ & Hm).
  injection Hd as <-.
  exists reply. now repeat split.
Defined.

(** *** Decimal texts *)

Lemma has_comma_app (a b : string) :
  has_comma (a ++ b) = has_comma a || has_comma b.
Proof.
  induction a as [|c a IH]; cbn; [reflexivity|].
  now rewrite IH, orb_assoc.
Qed.

Lemma uint_no_comma (d : Decimal.uint) :
  has_comma (NilEmpty.string_of_uint d) = false.
Proof. induction d; cbn; auto. Qed.

Lemma NumberToString_no_comma (n : Z) : has_comma (NumberToString n) = false.
Proof.
  unfold NumberToString, NilZero.string_of_int, NilZero.string_of_uint.
  destruct (Z.to_int n) as [d|d]; destruct d; cbn;
    auto using uint_no_comma.
Qed.

Lemma NumberToString_nonempty (n : Z) : NumberToString n <> EmptyString.
Proof.
  unfold NumberToString, NilZero.string_of_int, NilZero.string_of_uint.
  destruct (Z.to_int n) as [d|d]; destruct d; cbn; discriminate.
Qed.

Lemma NumberToString_inj (n n' : Z) :
  NumberToString n = NumberToString n' -> n = n'.
Proof.
  unfold NumberToString. intro H.
  apply DecimalZ.to_int_inj.
  assert (Hnn : forall z, Z.to_int z <> Decimal.Pos Decimal.Nil
                          /\ Z.to_int z <> Decimal.Neg Decimal.Nil).
  { intros [|p|p]; cbn; split; try discriminate;
      intros [= Hp]; now apply Unsigned.to_uint_nonnil in Hp. }
  destruct (Hnn n) as [H1 H2], (Hnn n') as [H1' H2'].
  pose proof (NilZero.isi _ H1 H2) as E.
  pose proof (NilZero.isi _ H1' H2') as E'.
  rewrite H in E. congruence.
Qed.

(** Two texts cut at their first comma are cut at the same place. *)
Lemma split_at_comma (a : string) :
  forall b ra rb,
    has_comma a = false -> has_comma b = false ->
    a ++ "," ++ ra = b ++ "," ++ rb -> a = b /\ ra = rb.
Proof.
  induction a as [|c a IH]; intros [|d b] ra rb Ha Hb H; cbn in *.
  - injection H as ->. now split.
  - injection H as <- _. cbn in Hb. discriminate.
  - injection H as -> _. cbn in Ha. discriminate.
  - injection H as -> H.
    apply orb_false_iff in Ha as [_ Ha].
    apply orb_false_iff in Hb as [_ Hb].
    destruct (IH b ra rb Ha Hb H) as [-> ->]. now split.
Qed.

Lemma comma_joined_cons (x y : Z) (r : list Z) :
  comma_joined (x :: y :: r)
  = NumberToString x ++ "," ++ comma_joined (y :: r).
Proof. reflexivity. Qed.

Lemma comma_joined_inj (l : list Z) :
  forall l', comma_joined l = comma_joined l' -> l = l'.
Proof.
  induction l as [|x r IH]; intros [|y r'] H.
  - reflexivity.
  - exfalso. destruct r' as [|z r'].
    + cbn in H. symmetry in H. now apply NumberToString_nonempty in H.
    + rewrite comma_joined_cons in H. cbn in H.
      destruct (NumberToString y) eqn:Hy; [|discriminate].
      now apply NumberToString_nonempty in Hy.
  - exfalso. destruct r as [|z r].
    + cbn in H. now apply NumberToString_nonempty in H.
    + rewrite comma_joined_cons in H. cbn in H.
      destruct (NumberToString x) eqn:Hx; [|discriminate].
      now apply NumberToString_nonempty in Hx.
  - destruct r as [|z r], r' as [|z' r'].
    + cbn in H. now apply NumberToString_inj in H as ->.
    + exfalso. rewrite comma_joined_cons in H.
      change (comma_joined [x]) with (NumberToString x) in H.
      pose proof (NumberToString_no_comma x) as Hc.
      rewrite H, has_comma_app in Hc. cbn in Hc.
      now rewrite orb_true_r in Hc.
    + exfalso. rewrite comma_joined_cons in H.
      change (comma_joined [y]) with (NumberToString y) in H.
      pose proof (NumberToString_no_comma y) as Hc.
      rewrite <- H, has_comma_app in Hc. cbn in Hc.
      now rewrite orb_true_r in Hc.
    + rewrite !comma_joined_cons in H.
      apply split_at_comma in H as [Hx Hr];
        try apply NumberToString_no_comma.
      apply NumberToString_inj in Hx as ->.
      now rewrite (IH _ Hr).
Qed.

(** X10: on integer id lists the signature is exact: two payloads have
    the same signature if and only if their id lists are permutations of
    each other.  A change of the ids is never missed and a reordering is
    never taken for a change. *)
Theorem signature_detects_id_changes (l l' : list Z)
    (payload payload' : value) :
  get_prop payload "freeChampionIds" = Ok (VArr (map VNum l)) ->
  get_prop payload' "freeChampionIds" = Ok (VArr (map VNum l')) ->
  (computeSignature payload = computeSignature payload' <-> Permutation l l').
Proof.
  intros H H'.
  rewrite (computeSignature_nums payload l H).
  rewrite (computeSignature_nums payload' l' H').
  split.
  - intros [= Heq]. apply comma_joined_inj in Heq.
    eapply perm_trans; [apply sortZ_perm|].
    rewrite Heq. apply Permutation_sym, sortZ_perm.
  - intro Hp. now rewrite (sortZ_permutation_invariant l l' Hp).
Qed.

Lemma signature_detects_id_changes_witness :
  Permutation [3; 1; 2] [2; 3; 1].
Proof.
  apply (signature_detects_id_changes [3; 1; 2] [2; 3; 1]
           (VObj [("freeChampionIds", VArr [VNum 3; VNum 1; VNum 2])])
           (VObj [("freeChampionIds", VArr [VNum 2; VNum 3; VNum 1])]));
    reflexivity.
Defined.

(** X11: a record the scheduled job writes is consistent under
    recomputation: when its [freeChampionIds] are numbers, computing the
    signature of the record itself gives the record's [signature]. *)
Theorem stored_record_recomputes (e : env) (st : store)
    (data : list (string * value)) (ids : list value) (zs : list Z) :
  In (DocSet "riot" "rotation" data) (events (checkChampionRotation e st)) ->
  lookup "freeChampionIds" data = Some (VArr ids) ->
  numbers ids = Some zs ->
  exists signature,
    lookup "signature" data = Some (VStr signature) /\
    computeSignature (VObj data) = Ok signature.
Proof.
  intros Hin Hl Hn.
  assert (Hrec : exists payload ids' signature,
             rotation_ids payload = Ok ids' /\
             Array_join "," ids' = Ok signature /\
             data = rotation_record signature ids' payload (server_time e)).
  { destruct (check_shape e st)
      as [Hfin Hq
         | payload ids' signature pre post Hids Hjoin rec
             Hacc Hpre Hpost Hfin Hev
         | payload ids' signature pre mid post Hids Hjoin rec
             Hacc Hpre Hmid Hpost Hfin Hev].
    - now apply quiet_no_write in Hin.
    - rewrite Hev in Hin.
      apply in_single_write in Hin; [| apply Hpre | apply Hpost].
      now exists payload, ids', signature.
    - rewrite Hev in Hin.
      apply in_single_write in Hin;
        [| apply Hpre | now apply writes_after_publish].
      now exists payload, ids', signature. }
  destruct Hrec as (payload & ids' & signature & Hids & Hjoin & ->).
  cbn in Hl. injection Hl as ->.
  exists signature. split; [reflexivity|].
  destruct (rotation_ids_sorted payload ids zs Hids Hn) as [Hs Hj].
  apply numbers_inv in Hn. subst ids.
  rewrite (computeSignature_nums _ zs) by reflexivity.
  rewrite (sortZ_fixpoint zs Hs). congruence.
Qed.

Lemma stored_record_recomputes_witness :
  exists signature,
    computeSignature
      (VObj (rotation_record "4,5" [VNum 4; VNum 5] rotation_54 1700000000))
    = Ok signature.
Proof.
  destruct (stored_record_recomputes (env_fine rotation_54) None
              (rotation_record "4,5" [VNum 4; VNum 5] rotation_54 1700000000)
              [VNum 4; VNum 5] [4; 5])
    as (signature & _ & Hsig);
    [vm_compute; tauto | reflexivity | reflexivity |].
  now exists signature.
Defined.

(** A run that finds the store current, or fails before comparing, does
    nothing to the store. *)
Lemma run_noop (e : env) (st : store) (signature : string) :
  upstream_signature e signature ->
  stored_signature st = VStr signature ->
  final (checkChampionRotation e st) = st /\
  quiet (events (checkChampionRotation e st)).
Proof.
  intros Hup Hst.
  destruct (resolve_total e st) as [key Hk].
  rewrite (check_unfold e st key Hk); cbv zeta.
  destruct (truthy key).
  2:{ cbn [final events]. split; [reflexivity|]. auto with quiet. }
  cbn [final events].
  assert (Hdone : forall (o : outcome unit) (tail : list event),
             final o = st -> quiet (events o) -> quiet tail ->
             final o = st /\
             quiet ((Log LInfo "Running scheduled Riot rotation check..."
                       :: events (resolveRiotApiKey e st))
                    ++ events o ++ tail)).
  { intros o tail Hfin Hq Ht. split; [exact Hfin|]. auto with quiet. }
  assert (Htail : forall r : result unit,
             quiet match r with
                   | Ok _ => []
                   | Throw _ => [Log LError "Error in scheduled rotation check"]
                   end)
    by (intros [|]; auto with quiet).
  destruct (res (fetchRiotRotation e key st)) as [[payload ri]|ferr] eqn:Hf.
  2:{ rewrite (try_fetch_throws e st key ferr Hf).
      apply Hdone; cbn; auto with quiet. }
  destruct (rotation_ids payload) as [ids|ierr] eqn:Hids.
  2:{ rewrite (try_ids_throw e st key payload ri ierr Hf Hids).
      apply Hdone; cbn; auto with quiet. }
  destruct (Array_join "," ids) as [signature'|jerr] eqn:Hjoin.
  2:{ rewrite (try_join_throws e st key payload ri ids jerr Hf Hids Hjoin).
      apply Hdone; cbn; auto with quiet. }
  destruct (firestore_get e) as [gerr|] eqn:Hget.
  { rewrite (try_read_throws e st key payload ri ids signature' gerr
               Hf Hids Hjoin Hget).
    apply Hdone; cbn; auto with quiet. }
  rewrite (try_run e st key payload ri ids signature' Hf Hids Hjoin Hget);
    cbv zeta.
  assert (Hsig : computeSignature payload = Ok signature')
    by (now rewrite (computeSignature_ids payload ids Hids)).
  rewrite (Hup key st payload ri signature' Hf Hsig).
  rewrite Hst. cbn [strict_equals]. rewrite String.eqb_refl.
  apply Hdone; cbn; auto 7 with quiet.
Qed.

(** X12: once the store holds a signature, any sequence of invocations
    of the scheduled job whose upstream can only return payloads of that
    signature leaves the store as it is and performs no write and no
    publish, also when some of these invocations fail to fetch, to read
    or would fail to write or publish. *)
Theorem repeated_runs_noop (es : list env) (st : store) (signature : string) :
  stored_signature st = VStr signature ->
  Forall (fun e => upstream_signature e signature) es ->
  fst (run_all es st) = st /\
  writes (snd (run_all es st)) = 0%nat /\
  publishes (snd (run_all es st)) = 0%nat.
Proof.
  intros Hst Hall.
  induction Hall as [|e rest He _ IH]; [now cbn|].
  cbn [run_all]. cbv zeta.
  destruct (run_noop e st signature He Hst) as [Hfin Hq].
  rewrite Hfin.
  destruct (run_all rest st) as [st' evs]; cbn [fst snd] in *.
  destruct IH as (-> & W & P). split; [reflexivity|].
  apply quiet_app; [exact Hq | now split].
Qed.

Lemma sample_upstream_signature (payload : value) (signature : string)
    (get_error set_error : option error) (sent : result string) :
  computeSignature payload = Ok signature ->
  upstream_signature
    (sample_env (Ok (json_response 200 payload)) get_error set_error sent)
    signature.
Proof.
  intros Hsig key st p ri signature' Hf Hs.
  rewrite fetch_token in Hf.
  destruct (ToString key) as [token|err]; [|discriminate].
  rewrite fetch_result in Hf. cbn in Hf.
  injection Hf as <- _. congruence.
Defined.

Lemma network_down_signature (signature : string) :
  upstream_signature env_network_down signature.
Proof.
  intros key st p ri signature' Hf Hs.
  rewrite fetch_token in Hf.
  destruct (ToString key) as [token|err]; [|discriminate].
  rewrite fetch_result in Hf. cbn in Hf. discriminate.
Defined.

Lemma repeated_runs_noop_witness :
  fst (run_all [ env_fine rotation_54; env_network_down;
                 env_write_fails rotation_54; env_publish_fails rotation_54 ]
         (Some (rotation_record "4,5" [VNum 4; VNum 5] rotation_54 1699999999)))
  = Some (rotation_record "4,5" [VNum 4; VNum 5] rotation_54 1699999999).
Proof.
  apply (repeated_runs_noop
           [ env_fine rotation_54; env_network_down;
             env_write_fails rotation_54; env_publish_fails rotation_54 ]
           (Some (rotation_record "4,5" [VNum 4; VNum 5] rotation_54
                    1699999999))
           "4,5"); [reflexivity|].
  repeat constructor;
    solve [ apply sample_upstream_signature; reflexivity
          | apply network_down_signature ].
Defined.

(** X13: a payload whose [freeChampionIds] is absent or not an array is
    not rejected: unless the stored signature is already the empty
    string, the job replaces the stored record by one with the empty
    signature and no ids, and publishes the notification. *)
Theorem malformed_payload_overwrites (e : env) (st : store) (payload : value) :
  upstream_payload e payload ->
  nullish payload = false ->
  (forall elems, get_prop payload "freeChampionIds" <> Ok (VArr elems)) ->
  firestore_get e = None ->
  (forall data, firestore_set e data = None) ->
  strict_equals (stored_signature st) (VStr EmptyString) = false ->
  let o := checkChampionRotation e st in
  final o = Some (rotation_record EmptyString [] payload (server_time e)) /\
  writes (events o) = 1%nat /\ publishes (events o) = 1%nat.
Proof.
  intros (key & ri & Ht & Hup) Hnull Hna Hget Hset Hdiff; cbv zeta.
  destruct (Hup st) as [Hk Hf].
  assert (Hids : rotation_ids payload = Ok []).
  { unfold rotation_ids, rotation_ids_on.
    destruct (get_prop payload "freeChampionIds") as [v|err] eqn:Hg.
    - destruct v; try reflexivity. now elim (Hna elems).
    - destruct payload; cbn in Hg; try discriminate.
      destruct (lookup _ _); discriminate. }
  pose proof (check_run e st key payload ri [] EmptyString
                Hk Ht Hf Hids eq_refl Hget) as Hrun.
  cbv zeta in Hrun.
  rewrite Hdiff in Hrun. unfold accepted in Hrun. rewrite Hset in Hrun.
  tauto.
Qed.

Lemma malformed_payload_overwrites_witness :
  final (checkChampionRotation
           (env_fine (VObj [("freeChampionIds", VStr "soon")]))
           (Some stale_record))
  = Some (rotation_record EmptyString []
            (VObj [("freeChampionIds", VStr "soon")]) 1700000000).
Proof.
  apply (malformed_payload_overwrites
           (env_fine (VObj [("freeChampionIds", VStr "soon")]))
           (Some stale_record) (VObj [("freeChampionIds", VStr "soon")]));
    try reflexivity.
  - apply env_fine_upstream.
  - intros elems; discriminate.
Defined.

Lemma credential_reaches_console_witness :
  console (events (championRotation (env_fine rotation_54) None))
  = ["RGAPI-sample"].
Proof.
  destruct (credential_reaches_console (env_fine rotation_54) None) as [H _].
  exact H.
Defined.
